(** * juit-vue-modal: the modal stack

    A shallow embedding of the module state of [src/plugin.ts] (the
    [entries] record, the [ModalEntry] objects it points to, the registered
    [modalStack] component instance and the reactive [stack] array of every
    instance) and of its operations [createModal], [mounted],
    [beforeUnmount], [render] and the [onDismissModal] closure built by
    [render]; and of the variant of the same module in
    [src/unnamed/part_000].  JavaScript objects are kept by reference:
    entries live in a heap, closures and the registry hold references, and
    every promise and virtual node has an identity.  Of the runtime the
    module runs on, the state keeps what its calls depend on: the resolving
    functions of every promise and the jobs they queue, and which component
    instances have been unmounted. *)

From Stdlib Require Import ZArith NArith Ascii String HexString Lia.
From stdpp Require Import base decidable option list gmap strings fin_maps.

Local Open Scope string_scope.
Local Open Scope list_scope.

(* ====================================================================== *)
(** ** Identifiers

    [Math.floor(Math.random() * Number.MAX_SAFE_INTEGER)
       .toString(16).substr(0, 8).padStart(8, '0')]

    The pseudo-random source enters as the non-negative integer that
    [Math.floor] returns. *)

Module Ident.

(** [Number.prototype.toString(16)] on a non-negative integer: lower-case
    digits, no prefix, no leading zero. *)
Definition toString16 (n : N) : string :=
  match n with
  | N0 => "0"
  | Npos p => HexString.Raw.of_pos p ""
  end.

(** [String.prototype.substr(start, length)]. *)
Definition substr (start len : nat) (s : string) : string :=
  String.substring start len s.

Fixpoint repeat_char (c : ascii) (n : nat) : string :=
  match n with
  | O => ""
  | S k => String c (repeat_char c k)
  end.

(** [String.prototype.padStart(targetLength, padChar)] with a pad string of
    one character. *)
Definition padStart (target : nat) (c : ascii) (s : string) : string :=
  repeat_char c (target - String.length s) +:+ s.

Definition gen_id (rnd : N) : string :=
  padStart 8 "0" (substr 0 8 (toString16 rnd)).

(** The sixteen digits [toString(16)] writes. *)
Definition hex_digits : list ascii :=
  ["0"; "1"; "2"; "3"; "4"; "5"; "6"; "7"; "8"; "9";
   "a"; "b"; "c"; "d"; "e"; "f"]%char.

Definition is_hex_digit (c : ascii) : bool :=
  bool_decide (c ∈ hex_digits).

Fixpoint string_forall (P : ascii -> bool) (s : string) : bool :=
  match s with
  | EmptyString => true
  | String c r => P c && string_forall P r
  end.

Definition is_hex_id (s : string) : bool :=
  (String.length s =? 8)%nat && string_forall is_hex_digit s.

End Ident.

Export Ident.

(* ====================================================================== *)
(** ** A state-and-exception monad

    Every operation of the plugin runs to completion on the module state;
    it either returns or throws, and in both cases leaves a state behind
    (a JavaScript exception does not undo earlier writes). *)

Inductive outcome (S A : Type) : Type :=
  | Returns (a : A) (s : S)
  | Throws (e : string) (s : S).
Arguments Returns {S A} a s.
Arguments Throws {S A} e s.

Definition M (S A : Type) : Type := S -> outcome S A.

Definition ret {S A} (a : A) : M S A := fun s => Returns a s.

Definition bind {S A B} (m : M S A) (k : A -> M S B) : M S B :=
  fun s =>
    match m s with
    | Returns a s' => k a s'
    | Throws e s' => Throws e s'
    end.

Definition throw {S A} (e : string) : M S A := fun s => Throws e s.
Definition gets {S A} (f : S -> A) : M S A := fun s => Returns (f s) s.
Definition modify {S} (f : S -> S) : M S unit := fun s => Returns tt (f s).

Notation "'let*' x ':=' c 'in' k" := (bind c (fun x => k))
  (at level 10, x name, c at level 100, k at level 200).
Notation "c '>>' k" := (bind c (fun _ => k))
  (at level 100, k at level 200, right associativity).

(** [Array.prototype.map] with an effectful callback: left to right. *)
Fixpoint arrayMap {S A B} (f : A -> M S B) (l : list A) : M S (list B) :=
  match l with
  | [] => ret []
  | x :: r =>
      let* y := f x in
      let* ys := arrayMap f r in
      ret (y :: ys)
  end.

(** The state an outcome leaves behind. *)
Definition final {S A} (o : outcome S A) : S :=
  match o with
  | Returns _ s => s
  | Throws _ s => s
  end.

(* ====================================================================== *)
(** ** Values, promises and virtual nodes *)

(** Results and prop values pass through the plugin untouched
    ([result: any]).  A value can be a thenable, an object with a [then]
    method; all that matters of it is what [then] does with the two
    functions it is handed: call the first with a value, call the second
    (or throw) with a reason, or call neither. *)
Inductive value : Type :=
  | VUndefined
  | VBool (b : bool)
  | VNum (z : Z)
  | VStr (s : string)
  | VThenable (t : thenable)
with thenable : Type :=
  | TResolves (v : value)
  | TRejects (reason : string)
  | TNever.

Definition is_thenable (v : value) : bool :=
  match v with
  | VThenable _ => true
  | _ => false
  end.

(** A component definition is opaque to the plugin. *)
Definition Component : Type := string.

(** Object identities: a component instance ([this]), a [ModalEntry]
    object, a [Promise] object. *)
Abbreviation inst := nat (only parsing).
Abbreviation loc := nat (only parsing).
Abbreviation pid := nat (only parsing).

(** A prop of a node is a value or an event handler; [F] is the type of
    the handler closures a module builds. *)
Inductive prop_value (F : Type) : Type :=
  | PValue (v : value)
  | PHandler (f : F).
Arguments PValue {F} v.
Arguments PHandler {F} f.

Inductive vnode_type : Type :=
  | VTag (tag : string)
  | VComponent (c : Component).

(** A [VNode] object; [vref] is its identity (every call of [h] makes a
    new object). *)
#[warnings="-register-all"]
Inductive VNode (F : Type) : Type :=
  | MkVNode (vref : nat) (vtype : vnode_type)
            (vprops : gmap string (prop_value F)) (vchildren : list (VNode F)).
Arguments MkVNode {F} vref vtype vprops vchildren.

Definition vref {F} (v : VNode F) : nat := let 'MkVNode r _ _ _ := v in r.
Definition vtype {F} (v : VNode F) : vnode_type :=
  let 'MkVNode _ t _ _ := v in t.
Definition vprops {F} (v : VNode F) : gmap string (prop_value F) :=
  let 'MkVNode _ _ p _ := v in p.
Definition vchildren {F} (v : VNode F) : list (VNode F) :=
  let 'MkVNode _ _ _ c := v in c.

(** [{ ...props }]: spreading [undefined] adds nothing. *)
Definition spread {F} (ps : option (gmap string value))
  : gmap string (prop_value F) :=
  PValue <$> default ∅ ps.

(** The dismissal hook of a node [render] returned: the [onDismissModal]
    prop of the component node inside the [div]. *)
Definition handler_of {F} (v : VNode F) : option F :=
  match vchildren v with
  | child :: _ =>
      match vprops child !! "onDismissModal" with
      | Some (PHandler c) => Some c
      | _ => None
      end
  | [] => None
  end.

Inductive promise_state : Type :=
  | Pending
  | Fulfilled (v : value)
  | Rejected (e : string).

(** What an observer of the module sees: [warn], an event delivered by
    [$emit], and the settlement of a promise (the one moment its [then]
    callbacks are scheduled). *)
Inductive event : Type :=
  | Warn (msg : string)
  | Emit (i : inst) (name : string) (arg : bool)
  | Settled (p : pid) (st : promise_state).

(** [Array.prototype.indexOf]: first position, or [-1]. *)
Fixpoint indexOf (x : string) (l : list string) : Z :=
  match l with
  | [] => (-1)%Z
  | y :: r =>
      if decide (y = x) then 0%Z
      else let i := indexOf x r in
           if (0 <=? i)%Z then (i + 1)%Z else (-1)%Z
  end.

(** [Array.prototype.splice(index, 1)]. *)
Definition splice1 (index : nat) (l : list string) : list string :=
  take index l ++ drop (S index) l.

(** Removing the first occurrence of [x]: what [indexOf] followed by a
    guarded [splice(index, 1)] amounts to (lemma [splice_indexOf]). *)
Fixpoint remove_first (x : string) (l : list string) : list string :=
  match l with
  | [] => []
  | y :: r => if decide (y = x) then r else y :: remove_first x r
  end.

(** How often [x] occurs in [l]. *)
Fixpoint occurrences (x : string) (l : list string) : nat :=
  match l with
  | [] => 0
  | y :: r => if decide (y = x) then S (occurrences x r) else occurrences x r
  end.

(* ====================================================================== *)
(** ** The module state of [src/plugin.ts] *)

Module Plugin.

(** The [onDismissModal] closure: what it captured from [render]. *)
Record closure : Type := Closure {
  cl_this : inst;
  cl_id : string;
  cl_entry : loc;
}.

(** [type ModalEntry]. *)
Record ModalEntry : Type := Entry {
  component : Component;
  props : option (gmap string value);
  resolve : pid;
  vnode : option (VNode closure);
}.

(** An entry record after [entry.vnode = v]. *)
Definition with_vnode (v : VNode closure) (e : ModalEntry) : ModalEntry :=
  Entry (component e) (props e) (resolve e) (Some v).

Record state : Type := State {
  (** [const entries: Record<string, ModalEntry> = {}]: identifier to
      entry object. *)
  entries : gmap string loc;
  (** the [ModalEntry] objects ever allocated, by reference *)
  heap : list ModalEntry;
  (** [let modalStack: ModalStack | undefined] *)
  modalStack : option inst;
  (** [data() { return { stack: [] } }] of every component instance *)
  stacks : gmap inst (list string);
  (** the promises [createModal] has made *)
  promises : list promise_state;
  (** number of [VNode] objects [h] has made *)
  vnodes : nat;
  (** warnings, delivered events and settlements, oldest first *)
  log : list event;
  (** of the pair of functions [(resolve, reject)] that [new Promise] hands
      to its executor: whether one of them has been called (the pair's
      [[AlreadyResolved]] record) *)
  alreadyResolved : gmap pid bool;
  (** the promise jobs queued and not yet run, oldest first: the promise
      and the thenable it was resolved with *)
  jobs : list (pid * thenable);
  (** the component instances the runtime has finished unmounting
      ([instance.isUnmounted]) *)
  isUnmounted : gset inst;
}.

Definition initial : state :=
  State ∅ [] None ∅ [] 0 [] ∅ [] ∅.

Definition set_entries (f : gmap string loc -> gmap string loc) (s : state) :=
  State (f (entries s)) (heap s) (modalStack s) (stacks s) (promises s)
        (vnodes s) (log s) (alreadyResolved s) (jobs s) (isUnmounted s).
Definition set_heap (f : list ModalEntry -> list ModalEntry) (s : state) :=
  State (entries s) (f (heap s)) (modalStack s) (stacks s) (promises s)
        (vnodes s) (log s) (alreadyResolved s) (jobs s) (isUnmounted s).
Definition set_modalStack (m : option inst) (s : state) :=
  State (entries s) (heap s) m (stacks s) (promises s) (vnodes s) (log s)
        (alreadyResolved s) (jobs s) (isUnmounted s).
Definition set_stacks
    (f : gmap inst (list string) -> gmap inst (list string)) (s : state) :=
  State (entries s) (heap s) (modalStack s) (f (stacks s)) (promises s)
        (vnodes s) (log s) (alreadyResolved s) (jobs s) (isUnmounted s).
Definition set_promises
    (f : list promise_state -> list promise_state) (s : state) :=
  State (entries s) (heap s) (modalStack s) (stacks s) (f (promises s))
        (vnodes s) (log s) (alreadyResolved s) (jobs s) (isUnmounted s).
Definition set_vnodes (n : nat) (s : state) :=
  State (entries s) (heap s) (modalStack s) (stacks s) (promises s) n (log s)
        (alreadyResolved s) (jobs s) (isUnmounted s).
Definition add_log (e : event) (s : state) :=
  State (entries s) (heap s) (modalStack s) (stacks s) (promises s)
        (vnodes s) (log s ++ [e]) (alreadyResolved s) (jobs s) (isUnmounted s).
Definition set_alreadyResolved (f : gmap pid bool -> gmap pid bool)
    (s : state) :=
  State (entries s) (heap s) (modalStack s) (stacks s) (promises s)
        (vnodes s) (log s) (f (alreadyResolved s)) (jobs s) (isUnmounted s).
Definition set_jobs
    (f : list (pid * thenable) -> list (pid * thenable)) (s : state) :=
  State (entries s) (heap s) (modalStack s) (stacks s) (promises s)
        (vnodes s) (log s) (alreadyResolved s) (f (jobs s)) (isUnmounted s).
Definition set_isUnmounted (f : gset inst -> gset inst) (s : state) :=
  State (entries s) (heap s) (modalStack s) (stacks s) (promises s)
        (vnodes s) (log s) (alreadyResolved s) (jobs s) (f (isUnmounted s)).

(** [this.stack] of instance [i]; an instance starts with [[]]. *)
Definition stack_of (s : state) (i : inst) : list string :=
  default [] (stacks s !! i).

(** *** Runtime primitives *)

Definition warn (msg : string) : M state unit := modify (add_log (Warn msg)).

(** What [this.$emit(name, arg)] leaves behind: the runtime delivers the
    event to the listeners of the instance, unless the instance has been
    unmounted, in which case it returns at once. *)
Definition deliver (this : inst) (name : string) (arg : bool) (s : state)
  : state :=
  if decide (this ∈ isUnmounted s) then s else add_log (Emit this name arg) s.

(** [this.$emit(name, arg)]. *)
Definition emit (this : inst) (name : string) (arg : bool) : M state unit :=
  modify (deliver this name arg).

(** What the log gains when instance [this] emits [evs] in state [s]. *)
Definition delivered (s : state) (this : inst) (evs : list event)
  : list event :=
  if decide (this ∈ isUnmounted s) then [] else evs.

(** [computed: hasModals() { return this.stack.length > 0 }]. *)
Definition hasModals (this : inst) : M state bool :=
  gets (fun s => (0 <? length (stack_of s this))%nat).

(** [new Promise(...)]: a fresh pending promise, with a fresh pair of
    resolving functions, neither of them called. *)
Definition new_promise : M state pid :=
  fun s =>
    let p := length (promises s) in
    Returns p (set_alreadyResolved <[p := false]>
                 (set_promises (fun ps => ps ++ [Pending]) s)).

(** Fulfilling or rejecting a promise: a pending promise takes the state,
    a settled one keeps its own. *)
Definition settle (p : pid) (st : promise_state) : M state unit :=
  fun s =>
    match promises s !! p with
    | Some Pending =>
        Returns tt (add_log (Settled p st)
                      (set_promises (fun ps => <[p := st]> ps) s))
    | _ => Returns tt s
    end.

(** Resolving a promise with a value: a thenable is not stored, a job is
    queued that will call its [then]; any other value fulfils the
    promise. *)
Definition follow (p : pid) (v : value) : M state unit :=
  match v with
  | VThenable t => modify (set_jobs (fun js => js ++ [(p, t)]))
  | _ => settle p (Fulfilled v)
  end.

(** The pair of functions of promise [p] acts the first time one of them
    is called and does nothing afterwards. *)
Definition first_call (p : pid) (act : M state unit) : M state unit :=
  fun s =>
    match alreadyResolved s !! p with
    | Some false => act (set_alreadyResolved <[p := true]> s)
    | _ => Returns tt s
    end.

(** The [resolve] and [reject] functions of promise [p]. *)
Definition promise_resolve (p : pid) (v : value) : M state unit :=
  first_call p (follow p v).
Definition promise_reject (p : pid) (e : string) : M state unit :=
  first_call p (settle p (Rejected e)).

(** The oldest promise job: [then] of the thenable is called with a new
    pair of functions for the promise, and the thenable uses one of them,
    or none. *)
Definition runJob : M state unit :=
  fun s =>
    match jobs s with
    | [] => Returns tt s
    | (p, t) :: rest =>
        let s1 := set_jobs (fun _ => rest) s in
        match t with
        | TResolves v => follow p v s1
        | TRejects e => settle p (Rejected e) s1
        | TNever => Returns tt s1
        end
    end.

(** [h(type, props, children)]: a new [VNode] object. *)
Definition h (ty : vnode_type) (ps : gmap string (prop_value closure))
    (children : list (VNode closure)) : M state (VNode closure) :=
  fun s => Returns (MkVNode (vnodes s) ty ps children)
                   (set_vnodes (S (vnodes s)) s).

(** An object literal [{ component, props, resolve }]: a new entry object. *)
Definition new_entry (e : ModalEntry) : M state loc :=
  fun s => Returns (length (heap s)) (set_heap (fun hp => hp ++ [e]) s).

(** Reading the entry object behind a reference.  References come from
    [new_entry] only, so the second case is not reached from [initial]. *)
Definition deref (l : loc) : M state ModalEntry :=
  fun s =>
    match heap s !! l with
    | Some e => Returns e s
    | None => Throws "invalid reference" s
    end.

(** [entry.vnode = v]. *)
Definition set_vnode (l : loc) (v : VNode closure) : M state unit :=
  modify (set_heap (alter (with_vnode v) l)).

(** [this.stack.push(id)]. *)
Definition push (this : inst) (id : string) : M state unit :=
  fun s => Returns tt (set_stacks <[this := stack_of s this ++ [id]]> s).

(** [this.stack.splice(index, 1)]. *)
Definition splice (this : inst) (index : nat) : M state unit :=
  fun s => Returns tt
    (set_stacks <[this := splice1 index (stack_of s this)]> s).

(** *** The component and [createModal] *)

(** [mounted()]. *)
Definition mounted (this : inst) : M state unit :=
  let* ms := gets modalStack in
  match ms with
  | Some _ => warn "Vue modal stack component mounted multiple times"
  | None => modify (set_modalStack (Some this))
  end.

(** [beforeUnmount()]. *)
Definition beforeUnmount (this : inst) : M state unit :=
  let* ms := gets modalStack in
  if decide (ms = Some this) then modify (set_modalStack None) else ret tt.

(** The body of the [onDismissModal] arrow function, for the closure [c]
    that [render] built. *)
Definition onDismissModal (c : closure) (result : value) : M state unit :=
  let* stack := gets (fun s => stack_of s (cl_this c)) in
  let index := indexOf (cl_id c) stack in
  (if (0 <=? index)%Z then splice (cl_this c) (Z.to_nat index) else ret tt) >>
  modify (set_entries (delete (cl_id c))) >>
  let* e := deref (cl_entry c) in
  promise_resolve (resolve e) result >>
  let* b := hasModals (cl_this c) in
  emit (cl_this c) "modalCreated" b >>
  let* b := hasModals (cl_this c) in
  emit (cl_this c) "modals" b.

(** The callback of [this.stack.map] in [render()]. *)
Definition render_entry (this : inst) (id : string) : M state (VNode closure) :=
  let* entry := gets (fun s => entries s !! id) in
  match entry with
  | None =>
      (* [entry.vnode] with [entry] undefined *)
      throw "TypeError: Cannot read properties of undefined"
  | Some l =>
      let* e := deref l in
      match vnode e with
      | Some v => ret v
      | None =>
          let onDismiss := Closure this id l in
          let* componentVNode :=
            h (VComponent (component e))
              (<["onDismissModal" := PHandler onDismiss]> (spread (props e)))
              [] in
          let* b := hasModals this in
          emit this "modalDismissed" b >>
          let* b := hasModals this in
          emit this "modals" b >>
          let* div :=
            h (VTag "div") {[ "data-modal-" +:+ id := PValue (VStr "") ]}
              [componentVNode] in
          set_vnode l div >>
          ret div
      end
  end.

(** [render()]. *)
Definition render (this : inst) : M state (list (VNode closure)) :=
  let* stack := gets (fun s => stack_of s this) in
  arrayMap (render_entry this) stack.

(** [createModal(component, props)]; [rnd] is what
    [Math.floor(Math.random() * Number.MAX_SAFE_INTEGER)] returns in this
    call.  The result is the promise. *)
Definition createModal (comp : Component) (ps : option (gmap string value))
    (rnd : N) : M state pid :=
  let* p := new_promise in
  let* ms := gets modalStack in
  (match ms with
   | None =>
       warn "No ModalStack component mounted in current render tree" >>
       promise_reject p "No ModalStack avaible"
   | Some _ => ret tt
   end) >>
  let id := gen_id rnd in
  let* l := new_entry (Entry comp ps p None) in
  modify (set_entries <[id := l]>) >>
  let* ms := gets modalStack in
  (match ms with
   | Some i => push i id
   | None => ret tt
   end) >>
  ret p.

(** *** What the host does with the module *)

(** The settlements of promise [p] that a log records. *)
Fixpoint settlements (p : pid) (l : list event) : list promise_state :=
  match l with
  | [] => []
  | Settled q st :: r =>
      if decide (q = p) then st :: settlements p r else settlements p r
  | _ :: r => settlements p r
  end.

(** The events instance [i] emitted under [name], oldest first. *)
Fixpoint emitted (i : inst) (name : string) (l : list event) : list bool :=
  match l with
  | [] => []
  | Emit j n b :: r =>
      if decide (j = i /\ n = name) then b :: emitted i name r
      else emitted i name r
  | _ :: r => emitted i name r
  end.

(** One thing the host does: a call into the module, or one of the two
    steps of the runtime that the module depends on.  [Mount i] and
    [Unmount i] are the calls of the hooks [mounted] and [beforeUnmount] of
    instance [i]; [beforeUnmount] is the first thing the runtime does when
    it unmounts an instance, and [Unmounted i] is the end of that
    unmounting, when the runtime flags the instance as unmounted: a whole
    unmount is [Unmount i] and then, at some later point, [Unmounted i].
    [Job] is the runtime running the oldest promise job. *)
Inductive op : Type :=
  | Mount (i : inst)
  | Unmount (i : inst)
  | Create (comp : Component) (ps : option (gmap string value)) (rnd : N)
  | Render (i : inst)
  | Dismiss (c : closure) (result : value)
  | Unmounted (i : inst)
  | Job.

Definition step (o : op) (s : state) : state :=
  match o with
  | Mount i => final (mounted i s)
  | Unmount i => final (beforeUnmount i s)
  | Create comp ps rnd => final (createModal comp ps rnd s)
  | Render i => final (render i s)
  | Dismiss c result => final (onDismissModal c result s)
  | Unmounted i => set_isUnmounted (fun u => {[i]} ∪ u) s
  | Job => final (runJob s)
  end.

Definition run (tr : list op) (s : state) : state :=
  foldl (fun s o => step o s) s tr.

(** *** Derived forms used in the statements *)

(** The state after the first three statements of [onDismissModal]: the
    identifier is spliced out of [this.stack] and deleted from [entries]. *)
Definition unlisted (c : closure) (s : state) : state :=
  let stack := stack_of s (cl_this c) in
  let index := indexOf (cl_id c) stack in
  State (delete (cl_id c) (entries s)) (heap s) (modalStack s)
        (if (0 <=? index)%Z
         then <[cl_this c := splice1 (Z.to_nat index) stack]> (stacks s)
         else stacks s)
        (promises s) (vnodes s) (log s) (alreadyResolved s) (jobs s)
        (isUnmounted s).

(** The [div] that [render] builds for the entry object [l] (holding [e])
    registered under [id], when [n] nodes exist already. *)
Definition fresh_node (this : inst) (id : string) (l : loc) (e : ModalEntry)
    (n : nat) : VNode closure :=
  MkVNode (S n) (VTag "div") {[ "data-modal-" +:+ id := PValue (VStr "") ]}
    [MkVNode n (VComponent (component e))
       (<["onDismissModal" := PHandler (Closure this id l)]>
          (spread (props e))) []].

(** The node cached on the entry registered under [id]. *)
Definition cached (s : state) (id : string) (v : VNode closure) : Prop :=
  exists l e, entries s !! id = Some l /\ heap s !! l = Some e /\
              vnode e = Some v.

(** What [render] may change from [s] to [s']: cached nodes, the node
    counter and the log; nothing else. *)
Definition renders (s s' : state) : Prop :=
  entries s' = entries s /\ modalStack s' = modalStack s /\
  stacks s' = stacks s /\ promises s' = promises s /\
  length (heap s') = length (heap s).

(** *** The two-modal scenario

    Mount, create A, create B, dismiss A with [x], dismiss B with [y].
    The host renders after B is created (the dismissal hooks only exist
    once rendered); [early] and [again] say whether it also renders between
    the two creations and between the two dismissals.  The program returns
    the stack after each of the four operations and the state of the
    promise of A and of B after its dismissal. *)

(** The second half: the two modals emit [dismissModal] in turn. *)
Definition dismiss_both (this : inst) (pA pB : pid) (x y : value)
    (again : bool) (nodes : list (VNode closure))
  : M state (list (list string) * list (option promise_state)) :=
  match handler_of <$> nodes with
  | [Some dismissA; Some dismissB] =>
      onDismissModal dismissA x >>
      let* stack3 := gets (fun s => stack_of s this) in
      let* futureA := gets (fun s => promises s !! pA) in
      (if again then render this >> ret tt else ret tt) >>
      onDismissModal dismissB y >>
      let* stack4 := gets (fun s => stack_of s this) in
      let* futureB := gets (fun s => promises s !! pB) in
      ret ([stack3; stack4], [futureA; futureB])
  | _ => throw "a rendered node has no dismissal hook"
  end.

Definition scenario (this : inst)
    (compA : Component) (psA : option (gmap string value)) (rndA : N)
    (compB : Component) (psB : option (gmap string value)) (rndB : N)
    (x y : value) (early again : bool)
  : M state (list (list string) * list (option promise_state)) :=
  mounted this >>
  let* pA := createModal compA psA rndA in
  let* stack1 := gets (fun s => stack_of s this) in
  (if early then render this >> ret tt else ret tt) >>
  let* pB := createModal compB psB rndB in
  let* stack2 := gets (fun s => stack_of s this) in
  let* nodes := render this in
  let* rest := dismiss_both this pA pB x y again nodes in
  ret (stack1 :: stack2 :: fst rest, snd rest).

(** *** Concrete runs used as examples *)

(** One modal, created under instance [0] and rendered once. *)
Definition one_modal : state :=
  run [Mount 0; Create "A" None 5; Render 0] initial.

(** What that run leaves on the heap. *)
Definition one_modal_node : VNode closure :=
  fresh_node 0 "00000005" 0 (Entry "A" None 0 None) 0.
Definition one_modal_entry : ModalEntry :=
  with_vnode one_modal_node (Entry "A" None 0 None).

(** Two modals whose random draws give the same identifier, rendered. *)
Definition collision : state :=
  run [Mount 0; Create "A" None 5; Create "B" None 5; Render 0] initial.

(** *** Invariants *)

(** Well-formed module states: the registry points into the heap, no two
    identifiers share an entry object, and the node cached on a registered
    entry carries the hook [render] built for that identifier and entry. *)
Record wf (s : state) : Prop := Wf {
  wf_bound : forall id l, entries s !! id = Some l -> l < length (heap s);
  wf_inj : forall id id' l,
      entries s !! id = Some l -> entries s !! id' = Some l -> id = id';
  wf_hook : forall id l e v,
      entries s !! id = Some l -> heap s !! l = Some e -> vnode e = Some v ->
      exists i, handler_of v = Some (Closure i id l);
}.

(** Stack and registry of the mounted instance [i] hold the same
    identifiers, each once. *)
Record synced (i : inst) (s : state) : Prop := Synced {
  synced_mounted : modalStack s = Some i;
  synced_nodup : NoDup (stack_of s i);
  synced_dom : forall id, id ∈ stack_of s i <-> is_Some (entries s !! id);
}.

(** The operation leaves the entry registered under [id] in place: it is
    neither a dismissal of [id] nor a [createModal] that draws [id] again
    and so replaces the entry. *)
Definition keeps (id : string) (o : op) : Prop :=
  match o with
  | Dismiss c _ => cl_id c <> id
  | Create _ _ rnd => gen_id rnd <> id
  | _ => True
  end.

(** Traces of [createModal], [render] and dismissals on the mounted
    instance [i] in which every [createModal] draws an identifier that is
    not in the registry at that moment. *)
Fixpoint collision_free (i : inst) (tr : list op) (s : state) : Prop :=
  match tr with
  | [] => True
  | o :: tr' =>
      match o with
      | Create _ _ rnd => entries s !! gen_id rnd = None
      | Render j => j = i
      | Dismiss c _ => cl_this c = i
      | Mount _ | Unmount _ | Unmounted _ | Job => False
      end /\ collision_free i tr' (step o s)
  end.

(** *** Nodes and registered identifiers *)

(** What an observer sees of the node of the modal registered under [id]
    with entry [e] and dismissal hook [c]: a [div] marked with the
    identifier, around one node of the entry's component whose props are
    the entry's props, except that ["onDismissModal"] is the hook. *)
Definition modal_div (id : string) (e : ModalEntry) (c : closure)
    (v : VNode closure) : Prop :=
  vtype v = VTag "div" /\
  vprops v = {[ "data-modal-" +:+ id := PValue (VStr "") ]} /\
  exists child,
    vchildren v = [child] /\
    vtype child = VComponent (component e) /\
    vchildren child = [] /\
    vprops child !! "onDismissModal" = Some (PHandler c) /\
    forall k, k <> "onDismissModal" ->
      vprops child !! k = PValue <$> (default ∅ (props e) !! k).

(** Every cached node is one [render] built for its entry, out of node
    identities handed out already, and no two entries share a node
    identity. *)
Record nodes_ok (s : state) : Prop := NodesOk {
  nodes_built : forall l e v,
      heap s !! l = Some e -> vnode e = Some v ->
      exists i id n, v = fresh_node i id l e n /\ S n < vnodes s;
  nodes_apart : forall l1 l2 e1 e2 v1 v2,
      heap s !! l1 = Some e1 -> heap s !! l2 = Some e2 ->
      vnode e1 = Some v1 -> vnode e2 = Some v2 ->
      vref v1 = vref v2 -> l1 = l2;
}.

(** The identifier is in the registry. *)
Definition registered (s : state) (id : string) : Prop :=
  is_Some (entries s !! id).

(** *** Hooks and promises *)

(** The closure is a hook that [render] built and that is still in place:
    the [onDismissModal] handler of the node cached on its entry object. *)
Definition hooked (s : state) (c : closure) : Prop :=
  exists e v, heap s !! cl_entry c = Some e /\ vnode e = Some v /\
              handler_of v = Some c.

(** Traces in which every dismissal goes through a hook in place at that
    moment. *)
Fixpoint through_hooks (tr : list op) (s : state) : Prop :=
  match tr with
  | [] => True
  | o :: tr' =>
      match o with
      | Dismiss c _ => hooked s c
      | _ => True
      end /\ through_hooks tr' (step o s)
  end.





End Plugin.

(* ====================================================================== *)
(** ** The variant of the module in [src/unnamed/part_000]

    One module-level reactive [stack], a [mounted] flag instead of a
    registered instance, no events, and no check in [createModal]. *)

Module Variant.

(** The [onDismissModal] function: it captured [id] and [entry]. *)
Record closure : Type := Closure {
  cl_id : string;
  cl_entry : loc;
}.

Record ModalEntry : Type := Entry {
  component : Component;
  props : option (gmap string value);
  resolve : pid;
  vnode : option (VNode closure);
}.

Definition with_vnode (v : VNode closure) (e : ModalEntry) : ModalEntry :=
  Entry (component e) (props e) (resolve e) (Some v).

Record state : Type := State {
  (** [const stack = reactive([] as string[])] *)
  stack : list string;
  (** [const entries: Record<string, ModalEntry> = {}] *)
  entries : gmap string loc;
  heap : list ModalEntry;
  (** [let mounted = false] *)
  is_mounted : bool;
  promises : list promise_state;
  vnodes : nat;
  log : list event;
  (** as in [src/plugin.ts]: whether a resolving function of the promise
      has been called, and the promise jobs queued *)
  alreadyResolved : gmap pid bool;
  jobs : list (pid * thenable);
}.

Definition initial : state := State [] ∅ [] false [] 0 [] ∅ [].

Definition warn (msg : string) : M state unit :=
  modify (fun s => State (stack s) (entries s) (heap s) (is_mounted s)
                         (promises s) (vnodes s) (log s ++ [Warn msg])
                         (alreadyResolved s) (jobs s)).

Definition new_promise : M state pid :=
  fun s => Returns (length (promises s))
    (State (stack s) (entries s) (heap s) (is_mounted s)
           (promises s ++ [Pending]) (vnodes s) (log s)
           (<[length (promises s) := false]> (alreadyResolved s)) (jobs s)).

Definition settle (p : pid) (st : promise_state) : M state unit :=
  fun s =>
    match promises s !! p with
    | Some Pending =>
        Returns tt
          (State (stack s) (entries s) (heap s) (is_mounted s)
                 (<[p := st]> (promises s)) (vnodes s)
                 (log s ++ [Settled p st]) (alreadyResolved s) (jobs s))
    | _ => Returns tt s
    end.

Definition follow (p : pid) (v : value) : M state unit :=
  match v with
  | VThenable t =>
      modify (fun s =>
        State (stack s) (entries s) (heap s) (is_mounted s) (promises s)
              (vnodes s) (log s) (alreadyResolved s) (jobs s ++ [(p, t)]))
  | _ => settle p (Fulfilled v)
  end.

(** The [resolve] function of promise [p]. *)
Definition promise_resolve (p : pid) (v : value) : M state unit :=
  fun s =>
    match alreadyResolved s !! p with
    | Some false =>
        follow p v
          (State (stack s) (entries s) (heap s) (is_mounted s) (promises s)
                 (vnodes s) (log s) (<[p := true]> (alreadyResolved s))
                 (jobs s))
    | _ => Returns tt s
    end.

(** The oldest promise job. *)
Definition runJob : M state unit :=
  fun s =>
    match jobs s with
    | [] => Returns tt s
    | (p, t) :: rest =>
        let s1 := State (stack s) (entries s) (heap s) (is_mounted s)
                        (promises s) (vnodes s) (log s) (alreadyResolved s)
                        rest in
        match t with
        | TResolves v => follow p v s1
        | TRejects e => settle p (Rejected e) s1
        | TNever => Returns tt s1
        end
    end.

Definition h (ty : vnode_type) (ps : gmap string (prop_value closure))
    (children : list (VNode closure)) : M state (VNode closure) :=
  fun s => Returns (MkVNode (vnodes s) ty ps children)
    (State (stack s) (entries s) (heap s) (is_mounted s) (promises s)
           (S (vnodes s)) (log s) (alreadyResolved s) (jobs s)).

Definition deref (l : loc) : M state ModalEntry :=
  fun s =>
    match heap s !! l with
    | Some e => Returns e s
    | None => Throws "invalid reference" s
    end.

(** [mounted()]. *)
Definition mounted : M state unit :=
  let* m := gets is_mounted in
  (if m then warn "Vue modal stack component mounted multiple times"
   else ret tt) >>
  modify (fun s => State (stack s) (entries s) (heap s) true (promises s)
                         (vnodes s) (log s) (alreadyResolved s) (jobs s)).

(** The body of [function onDismissModal(result)]. *)
Definition onDismissModal (c : closure) (result : value) : M state unit :=
  let* index := gets (fun s => indexOf (cl_id c) (stack s)) in
  (if (0 <=? index)%Z
   then modify (fun s =>
          State (splice1 (Z.to_nat index) (stack s)) (entries s) (heap s)
                (is_mounted s) (promises s) (vnodes s) (log s)
                (alreadyResolved s) (jobs s))
   else ret tt) >>
  modify (fun s => State (stack s) (delete (cl_id c) (entries s)) (heap s)
                         (is_mounted s) (promises s) (vnodes s) (log s)
                         (alreadyResolved s) (jobs s)) >>
  let* e := deref (cl_entry c) in
  promise_resolve (resolve e) result.

(** The callback of [stack.map] in [render()]. *)
Definition render_entry (id : string) : M state (VNode closure) :=
  let* entry := gets (fun s => entries s !! id) in
  match entry with
  | None => throw "TypeError: Cannot read properties of undefined"
  | Some l =>
      let* e := deref l in
      match vnode e with
      | Some v => ret v
      | None =>
          let* comp :=
            h (VComponent (component e))
              (<["onDismissModal" := PHandler (Closure id l)]>
                 (spread (props e))) [] in
          let* div :=
            h (VTag "div")
              (<["data-modal-" +:+ id := PValue (VStr "")]>
                 {[ "key" := PValue (VStr id) ]})
              [comp] in
          modify (fun s =>
            State (stack s) (entries s) (alter (with_vnode div) l (heap s))
                  (is_mounted s) (promises s) (vnodes s) (log s)
                  (alreadyResolved s) (jobs s)) >>
          ret div
      end
  end.

(** [render()]. *)
Definition render : M state (list (VNode closure)) :=
  let* ids := gets stack in
  arrayMap render_entry ids.

(** [createModal(component, props)]. *)
Definition createModal (comp : Component) (ps : option (gmap string value))
    (rnd : N) : M state pid :=
  let* p := new_promise in
  let id := gen_id rnd in
  modify (fun s =>
    State (stack s) (<[id := length (heap s)]> (entries s))
          (heap s ++ [Entry comp ps p None]) (is_mounted s) (promises s)
          (vnodes s) (log s) (alreadyResolved s) (jobs s)) >>
  modify (fun s =>
    State (stack s ++ [id]) (entries s) (heap s) (is_mounted s) (promises s)
          (vnodes s) (log s) (alreadyResolved s) (jobs s)) >>
  ret p.

(** *** What the host does with the module *)

(** One call into the module from outside, or the runtime running the
    oldest promise job. *)
Inductive op : Type :=
  | Mount
  | Create (comp : Component) (ps : option (gmap string value)) (rnd : N)
  | Render
  | Dismiss (c : closure) (result : value)
  | Job.

Definition step (o : op) (s : state) : state :=
  match o with
  | Mount => final (mounted s)
  | Create comp ps rnd => final (createModal comp ps rnd s)
  | Render => final (render s)
  | Dismiss c result => final (onDismissModal c result s)
  | Job => final (runJob s)
  end.

Definition run (tr : list op) (s : state) : state :=
  foldl (fun s o => step o s) s tr.

(** Stack and registry hold the same identifiers, each once. *)
Record synced (s : state) : Prop := Synced {
  synced_nodup : NoDup (stack s);
  synced_dom : forall id, id ∈ stack s <-> is_Some (entries s !! id);
}.

(** Traces in which every [createModal] draws an identifier that is not in
    the registry at that moment. *)
Fixpoint collision_free (tr : list op) (s : state) : Prop :=
  match tr with
  | [] => True
  | o :: tr' =>
      match o with
      | Create _ _ rnd => entries s !! gen_id rnd = None
      | _ => True
      end /\ collision_free tr' (step o s)
  end.

End Variant.


(* ====================================================================== *)
(** * Properties *)

(** ** Identifiers *)

Section IdentFacts.

Lemma string_forall_app P s1 s2 :
  string_forall P (s1 +:+ s2) = string_forall P s1 && string_forall P s2.
Proof.
  induction s1 as [|c s1 IH]; simpl; [done|].
  by rewrite IH, andb_assoc.
Qed.

Lemma string_forall_substring P s : forall n m,
  string_forall P s = true -> string_forall P (String.substring n m s) = true.
Proof.
  induction s as [|c s IH]; intros n m H.
  - by destruct n, m.
  - simpl in H. apply andb_true_iff in H as [Hc Hs].
    destruct n as [|n]; simpl.
    + destruct m as [|m]; simpl; [done|].
      rewrite Hc. simpl. by apply IH.
    + by apply IH.
Qed.

Lemma string_forall_repeat_char P c n :
  P c = true -> string_forall P (repeat_char c n) = true.
Proof. intros H. induction n as [|n IH]; simpl; [done|]. by rewrite H, IH. Qed.

Lemma length_repeat_char c n : String.length (repeat_char c n) = n.
Proof. induction n as [|n IH]; simpl; [done|]. by rewrite IH. Qed.

Lemma length_append s1 s2 :
  String.length (s1 +:+ s2) = String.length s1 + String.length s2.
Proof. induction s1 as [|c s1 IH]; simpl; [done|]. by rewrite IH. Qed.

Lemma length_substring_0 s : forall m,
  String.length (String.substring 0 m s) = Nat.min m (String.length s).
Proof.
  induction s as [|c s IH]; intros [|m]; simpl; try done.
  by rewrite IH.
Qed.

Lemma length_padStart n c s :
  String.length (padStart n c s) = Nat.max n (String.length s).
Proof.
  unfold padStart. rewrite length_append, length_repeat_char. lia.
Qed.

Lemma of_pos_hex : forall p rest,
  string_forall is_hex_digit rest = true ->
  string_forall is_hex_digit (HexString.Raw.of_pos p rest) = true.
Proof.
  fix IH 1. intros p rest H.
  do 4 try destruct p as [p|p|]; simpl; try apply IH; simpl; by rewrite ?H.
Qed.

Lemma toString16_hex n : string_forall is_hex_digit (toString16 n) = true.
Proof. destruct n as [|p]; [done|]. by apply of_pos_hex. Qed.

(** C8: whatever integer the pseudo-random source yields, the identifier
    [createModal] derives from it is a string of exactly eight characters,
    each of them one of the sixteen lower-case hexadecimal digits. *)
Theorem gen_id_eight_hex_digits (rnd : N) :
  String.length (gen_id rnd) = 8 /\
  string_forall is_hex_digit (gen_id rnd) = true /\
  is_hex_id (gen_id rnd) = true.
Proof.
  assert (String.length (gen_id rnd) = 8) as Hlen.
  { unfold gen_id, substr. rewrite length_padStart, length_substring_0. lia. }
  assert (string_forall is_hex_digit (gen_id rnd) = true) as Hhex.
  { unfold gen_id, substr, padStart. rewrite string_forall_app.
    apply andb_true_iff. split.
    - by apply string_forall_repeat_char.
    - apply string_forall_substring, toString16_hex. }
  split_and!; [done | done |].
  unfold is_hex_id. by rewrite Hlen, Hhex.
Qed.

(** The first eight digits are kept, short numbers are padded. *)
Example gen_id_keeps_leading_digits : gen_id 4886718345 = "12345678".
Proof. reflexivity. Qed.

Example gen_id_pads : gen_id 255 = "000000ff".
Proof. reflexivity. Qed.

End IdentFacts.


(** ** Reading identifiers back *)

Lemma string_app_assoc s1 s2 s3 : (s1 +:+ s2) +:+ s3 = s1 +:+ (s2 +:+ s3).
Proof.
  induction s1 as [|c s1 IH]; [reflexivity|].
  change (String c ((s1 +:+ s2) +:+ s3) = String c (s1 +:+ (s2 +:+ s3))).
  by rewrite IH.
Qed.

Lemma of_pos_app : forall p rest,
  HexString.Raw.of_pos p rest = HexString.Raw.of_pos p "" +:+ rest.
Proof.
  fix IH 1. intros p rest.
  do 4 try destruct p as [p|p|]; try reflexivity; cbn [HexString.Raw.of_pos];
    match goal with
    | |- HexString.Raw.of_pos ?q (String ?c rest) = _ =>
        rewrite (IH q (String c rest)), (IH q (String c ""));
        rewrite string_app_assoc; reflexivity
    end.
Qed.

Lemma of_pos_nonempty : forall p, 1 <= String.length (HexString.Raw.of_pos p "").
Proof.
  intros p. do 4 try destruct p as [p|p|]; cbn [HexString.Raw.of_pos];
    try (rewrite of_pos_app, length_append; cbn; lia); cbn; lia.
Qed.

Lemma of_pos_length_upper k : forall p,
  (N.pos p < 16 ^ N.of_nat k)%N ->
  String.length (HexString.Raw.of_pos p "") <= k.
Proof.
  induction k as [|k IH]; intros p Hp.
  - cbn in Hp. lia.
  - rewrite Nat2N.inj_succ, N.pow_succ_r' in Hp.
    do 4 try destruct p as [p|p|]; cbn [HexString.Raw.of_pos];
      try (rewrite of_pos_app, length_append; cbn [String.length];
           specialize (IH p); lia);
      cbn; lia.
Qed.

Lemma of_pos_length_lower k : forall p,
  (16 ^ N.of_nat k <= N.pos p)%N ->
  S k <= String.length (HexString.Raw.of_pos p "").
Proof.
  induction k as [|k IH]; intros p Hp.
  - apply of_pos_nonempty.
  - rewrite Nat2N.inj_succ, N.pow_succ_r' in Hp.
    assert (1 <= 16 ^ N.of_nat k)%N as Hpos.
    { pose proof (N.pow_nonzero 16 (N.of_nat k)). lia. }
    do 4 try destruct p as [p|p|]; cbn [HexString.Raw.of_pos];
      try (rewrite of_pos_app, length_append; cbn [String.length];
           specialize (IH p); lia);
      lia.
Qed.

Lemma substring_all s : forall n,
  String.length s <= n -> String.substring 0 n s = s.
Proof.
  induction s as [|c s IH]; intros [|n] H; cbn in *; try done; try lia.
  rewrite IH; [done | lia].
Qed.

Lemma substring_app_l s t : forall n,
  n <= String.length s -> String.substring 0 n (s +:+ t) = String.substring 0 n s.
Proof.
  induction s as [|c s IH]; intros [|n] H; cbn in *; try done; try lia.
  - by destruct t.
  - change (String c (String.substring 0 n (s +:+ t))
            = String c (String.substring 0 n s)).
    rewrite IH; [done | lia].
Qed.

Lemma to_N_repeat_zero k s :
  HexString.Raw.to_N (repeat_char "0" k +:+ s) 0 = HexString.Raw.to_N s 0.
Proof. induction k as [|k IH]; [done|]. exact IH. Qed.

Lemma toString16_length_upper k n :
  (n < 16 ^ N.of_nat k)%N -> 0 < k -> String.length (toString16 n) <= k.
Proof.
  destruct n as [|p]; intros Hn Hk; [cbn; lia|]. by apply of_pos_length_upper.
Qed.

Lemma toString16_decode n : HexString.Raw.to_N (toString16 n) 0 = n.
Proof.
  destruct n as [|p]; [done|]. cbn [toString16].
  by rewrite HexString.Raw.to_N_of_pos.
Qed.

Lemma gen_id_decode rnd :
  (rnd < 16 ^ 8)%N -> HexString.Raw.to_N (gen_id rnd) 0 = rnd.
Proof.
  intros Hr. unfold gen_id, substr, padStart.
  rewrite to_N_repeat_zero, substring_all.
  - apply toString16_decode.
  - by apply (toString16_length_upper 8); [|lia].
Qed.

(** X1: a draw below [16^8] is written with at most eight hexadecimal digits,
    so [substr(0, 8)] cuts nothing: read back as a hexadecimal number the
    identifier is the draw, and two such draws get the same identifier only
    if they are equal. *)
Theorem gen_id_decodes_small_draws rnd rnd' :
  (rnd < 16 ^ 8)%N -> (rnd' < 16 ^ 8)%N ->
  HexString.Raw.to_N (gen_id rnd) 0 = rnd /\
  (gen_id rnd = gen_id rnd' -> rnd = rnd').
Proof.
  intros Hr Hr'. split; [by apply gen_id_decode|].
  intros Heq. rewrite <- (gen_id_decode rnd), <- (gen_id_decode rnd') by done.
  by rewrite Heq.
Qed.

Lemma gen_id_decodes_small_draws_witness :
  (255 < 16 ^ 8)%N /\ (4096 < 16 ^ 8)%N /\
  HexString.Raw.to_N (gen_id 255) 0 = 255%N /\
  (gen_id 255 = gen_id 4096 -> 255%N = 4096%N).
Proof.
  assert (255 < 16 ^ 8)%N as H1 by (vm_compute; reflexivity).
  assert (4096 < 16 ^ 8)%N as H2 by (vm_compute; reflexivity).
  split_and!; [exact H1 | exact H2 | ..];
    apply (gen_id_decodes_small_draws 255 4096 H1 H2).
Defined.

Lemma toString16_snoc n d :
  (0 < n)%N -> (d < 16)%N ->
  exists c, toString16 (16 * n + d) = toString16 n +:+ String c "".
Proof.
  intros Hn Hd. destruct n as [|p]; [lia|].
  assert (d = 0 \/ d = 1 \/ d = 2 \/ d = 3 \/ d = 4 \/ d = 5 \/ d = 6 \/
          d = 7 \/ d = 8 \/ d = 9 \/ d = 10 \/ d = 11 \/ d = 12 \/ d = 13 \/
          d = 14 \/ d = 15)%N as Hcases by lia.
  repeat (destruct Hcases as [->|Hcases]); [..|subst d];
    (eexists;
     cbv beta iota delta [N.mul N.add Pos.mul Pos.add Pos.add_carry Pos.succ];
     cbn [toString16 HexString.Raw.of_pos]; apply of_pos_app).
Qed.

(** X2: of a draw of nine hexadecimal digits or more [substr(0, 8)] keeps the
    leading eight only: the draw [16 * n + d], with [n] of eight digits or
    more and [d] one digit, gets the identifier of [n]. *)
Theorem gen_id_drops_low_digits n d :
  (16 ^ 7 <= n)%N -> (d < 16)%N -> gen_id (16 * n + d) = gen_id n.
Proof.
  intros Hn Hd.
  assert (8 <= String.length (toString16 n)) as Hlen.
  { destruct n as [|p]; [cbn in Hn; lia|]. by apply (of_pos_length_lower 7). }
  destruct (toString16_snoc n d) as [c Hc]; [lia | done |].
  unfold gen_id, substr. by rewrite Hc, substring_app_l.
Qed.

Lemma gen_id_drops_low_digits_witness :
  (16 ^ 7 <= 268435456)%N /\ (5 < 16)%N /\
  gen_id (16 * 268435456 + 5) = gen_id 268435456.
Proof.
  assert (16 ^ 7 <= 268435456)%N as H1 by (vm_compute; discriminate).
  assert (5 < 16)%N as H2 by lia.
  split_and!; [exact H1 | exact H2 |].
  exact (gen_id_drops_low_digits 268435456 5 H1 H2).
Defined.

(* ====================================================================== *)
(** ** [src/plugin.ts] *)

Import Plugin.

Local Opaque gen_id.

Lemma list_insert_snoc {A} (l : list A) (x y : A) :
  <[length l := y]> (l ++ [x]) = l ++ [y].
Proof. induction l as [|a l IH]; simpl; [done|]. by rewrite IH. Qed.

Lemma lookup_snoc {A} (l : list A) (x : A) : (l ++ [x]) !! length l = Some x.
Proof. induction l as [|a l IH]; simpl; done. Qed.

Ltac unfold_m :=
  cbv [bind ret gets modify throw new_promise new_entry warn emit hasModals
       h push splice set_vnode promise_resolve promise_reject first_call
       deref add_log set_entries set_heap set_modalStack set_stacks
       set_promises set_vnodes set_alreadyResolved set_jobs];
  cbn [entries heap modalStack stacks promises vnodes log alreadyResolved
       jobs isUnmounted].

(** [createModal] under a registered instance. *)
Lemma createModal_mounted comp ps rnd s i :
  modalStack s = Some i ->
  createModal comp ps rnd s =
    Returns (length (promises s))
      (State (<[gen_id rnd := length (heap s)]> (entries s))
             (heap s ++ [Entry comp ps (length (promises s)) None])
             (Some i)
             (<[i := stack_of s i ++ [gen_id rnd]]> (stacks s))
             (promises s ++ [Pending]) (vnodes s) (log s)
             (<[length (promises s) := false]> (alreadyResolved s))
             (jobs s) (isUnmounted s)).
Proof.
  intros Hm. unfold createModal. unfold_m. rewrite Hm. unfold_m.
  reflexivity.
Qed.

Lemma createModal_unmounted comp ps rnd s :
  modalStack s = None ->
  createModal comp ps rnd s =
    Returns (length (promises s))
      (State (<[gen_id rnd := length (heap s)]> (entries s))
             (heap s ++ [Entry comp ps (length (promises s)) None])
             None (stacks s)
             (promises s ++ [Rejected "No ModalStack avaible"]) (vnodes s)
             (log s ++
                [Warn "No ModalStack component mounted in current render tree";
                 Settled (length (promises s))
                         (Rejected "No ModalStack avaible")])
             (<[length (promises s) := true]> (alreadyResolved s))
             (jobs s) (isUnmounted s)).
Proof.
  intros Hm. unfold createModal. unfold_m. rewrite Hm. unfold_m.
  rewrite lookup_insert_eq. unfold settle. unfold_m.
  rewrite lookup_snoc. unfold_m.
  rewrite list_insert_snoc, <- app_assoc, insert_insert_eq. reflexivity.
Qed.

(** ** [indexOf] and [splice] *)

Lemma indexOf_bound x l : (-1 <= indexOf x l < Z.of_nat (length l))%Z.
Proof.
  induction l as [|y l IH]; simpl; [lia|].
  case_decide; [lia|]. destruct (0 <=? indexOf x l)%Z eqn:E; lia.
Qed.

Lemma indexOf_absent x l : x ∉ l <-> indexOf x l = (-1)%Z.
Proof.
  induction l as [|y l IH]; simpl.
  - split; [done|]. intros _. apply not_elem_of_nil.
  - rewrite not_elem_of_cons. case_decide as Hy.
    + split; [intros [? _]; congruence | lia].
    + pose proof (indexOf_bound x l).
      destruct (0 <=? indexOf x l)%Z eqn:E.
      * split; [|lia]. intros [_ H1]. apply IH in H1. lia.
      * split; [done|]. intros _. split; [congruence|]. apply IH. lia.
Qed.

Lemma splice_indexOf x l :
  (if (0 <=? indexOf x l)%Z then splice1 (Z.to_nat (indexOf x l)) l else l)
  = remove_first x l.
Proof.
  induction l as [|y l IH]; simpl; [done|].
  case_decide as Hy; [done|].
  pose proof (indexOf_bound x l).
  destruct (0 <=? indexOf x l)%Z eqn:E.
  - assert ((0 <=? indexOf x l + 1)%Z = true) as -> by lia.
    replace (Z.to_nat (indexOf x l + 1)) with (S (Z.to_nat (indexOf x l)))
      by lia.
    rewrite <- IH. reflexivity.
  - simpl. by rewrite <- IH.
Qed.

Lemma elem_of_remove_first x y l :
  y ∈ remove_first x l -> y ∈ l.
Proof.
  induction l as [|z l IH]; simpl; [done|].
  case_decide; rewrite !elem_of_cons; [by right|].
  intros [->|H1]; [by left | right; by apply IH].
Qed.

Lemma elem_of_remove_first_ne x y l :
  y <> x -> y ∈ l -> y ∈ remove_first x l.
Proof.
  intros Hne. induction l as [|z l IH]; simpl; [done|].
  case_decide; rewrite !elem_of_cons.
  - intros [->|H1]; [congruence | done].
  - intros [->|H1]; [by left | right; by apply IH].
Qed.

Lemma NoDup_remove_first x l : NoDup l -> NoDup (remove_first x l).
Proof.
  induction 1 as [|z l Hz Hl IH]; simpl; [constructor|].
  case_decide; [done|]. constructor; [|done].
  intros H1. by apply elem_of_remove_first in H1.
Qed.

Lemma remove_first_NoDup_absent x l : NoDup l -> x ∉ remove_first x l.
Proof.
  induction 1 as [|z l Hz Hl IH]; simpl; [apply not_elem_of_nil|].
  case_decide; [congruence|]. rewrite not_elem_of_cons. done.
Qed.

(** ** The operations as equations *)

Lemma bind_returns {A B} (m : M state A) (k : A -> M state B) s a s' :
  m s = Returns a s' -> bind m k s = k a s'.
Proof. intros H. unfold bind. by rewrite H. Qed.

Lemma mounted_first this s :
  modalStack s = None ->
  mounted this s = Returns tt (set_modalStack (Some this) s).
Proof. intros H. unfold mounted, bind, gets. rewrite H. reflexivity. Qed.

Lemma mounted_again this s j :
  modalStack s = Some j ->
  mounted this s =
    Returns tt
      (add_log (Warn "Vue modal stack component mounted multiple times") s).
Proof. intros H. unfold mounted, bind, gets. rewrite H. reflexivity. Qed.

Lemma beforeUnmount_registered this s :
  modalStack s = Some this ->
  beforeUnmount this s = Returns tt (set_modalStack None s).
Proof.
  intros H. unfold beforeUnmount, bind, gets.
  destruct (decide (modalStack s = Some this)); [reflexivity || done ..].
Qed.

Lemma beforeUnmount_other this s :
  modalStack s <> Some this -> beforeUnmount this s = Returns tt s.
Proof.
  intros H. unfold beforeUnmount, bind, gets.
  destruct (decide (modalStack s = Some this)); [reflexivity || done ..].
Qed.

Lemma settle_pending p st s :
  promises s !! p = Some Pending ->
  settle p st s =
    Returns tt (add_log (Settled p st)
                  (set_promises (fun ps => <[p := st]> ps) s)).
Proof. intros H. unfold settle. by rewrite H. Qed.

Lemma settle_settled p st s :
  promises s !! p <> Some Pending -> settle p st s = Returns tt s.
Proof.
  intros H. unfold settle.
  destruct (promises s !! p) as [[]|]; congruence.
Qed.

Lemma settle_returns p st s : exists s', settle p st s = Returns tt s'.
Proof. unfold settle. destruct (promises s !! p) as [[]|]; eauto. Qed.

Lemma follow_plain p v s :
  is_thenable v = false -> follow p v s = settle p (Fulfilled v) s.
Proof. by destruct v. Qed.

Lemma follow_returns p v s : exists s', follow p v s = Returns tt s'.
Proof.
  destruct v; try apply settle_returns. unfold follow, modify. eauto.
Qed.

Lemma promise_resolve_returns p v s :
  exists s', promise_resolve p v s = Returns tt s'.
Proof.
  unfold promise_resolve, first_call.
  destruct (alreadyResolved s !! p) as [[]|]; eauto using follow_returns.
Qed.

(** The first call of [resolve], with a value that is not a thenable, on
    a pending promise. *)
Lemma promise_resolve_first p v s :
  alreadyResolved s !! p = Some false -> promises s !! p = Some Pending ->
  is_thenable v = false ->
  promise_resolve p v s =
    Returns tt
      (add_log (Settled p (Fulfilled v))
         (set_promises (fun ps => <[p := Fulfilled v]> ps)
            (set_alreadyResolved <[p := true]> s))).
Proof.
  intros Ha Hp Hv. unfold promise_resolve, first_call. rewrite Ha.
  rewrite follow_plain by done. by rewrite settle_pending.
Qed.

(** The first call of [resolve], with a thenable. *)
Lemma promise_resolve_thenable p t s :
  alreadyResolved s !! p = Some false ->
  promise_resolve p (VThenable t) s =
    Returns tt
      (set_jobs (fun js => js ++ [(p, t)])
         (set_alreadyResolved <[p := true]> s)).
Proof.
  intros Ha. unfold promise_resolve, first_call. by rewrite Ha.
Qed.

(** A later call. *)
Lemma promise_resolve_again p v s :
  alreadyResolved s !! p <> Some false -> promise_resolve p v s = Returns tt s.
Proof.
  intros Ha. unfold promise_resolve, first_call.
  destruct (alreadyResolved s !! p) as [[]|]; congruence.
Qed.

Lemma settle_frame p st s :
  let s' := final (settle p st s) in
  entries s' = entries s /\ heap s' = heap s /\
  modalStack s' = modalStack s /\ stacks s' = stacks s /\
  vnodes s' = vnodes s /\ alreadyResolved s' = alreadyResolved s /\
  jobs s' = jobs s /\ isUnmounted s' = isUnmounted s.
Proof. unfold settle. by destruct (promises s !! p) as [[]|]. Qed.

Lemma follow_frame p v s :
  let s' := final (follow p v s) in
  entries s' = entries s /\ heap s' = heap s /\
  modalStack s' = modalStack s /\ stacks s' = stacks s /\
  vnodes s' = vnodes s /\ alreadyResolved s' = alreadyResolved s /\
  isUnmounted s' = isUnmounted s.
Proof.
  destruct v as [| | | |t];
    try (cbn [follow];
         match goal with
         | |- context [settle p ?st s] =>
             destruct (settle_frame p st s) as (? & ? & ? & ? & ? & ? & ? & ?)
         end; by split_and!).
  done.
Qed.

Lemma promise_resolve_frame p v s :
  let s' := final (promise_resolve p v s) in
  entries s' = entries s /\ heap s' = heap s /\
  modalStack s' = modalStack s /\ stacks s' = stacks s /\
  vnodes s' = vnodes s /\ isUnmounted s' = isUnmounted s.
Proof.
  unfold promise_resolve, first_call.
  destruct (alreadyResolved s !! p) as [[]|]; try done.
  destruct (follow_frame p v (set_alreadyResolved <[p:=true]> s))
    as (? & ? & ? & ? & ? & ? & ?).
  by split_and!.
Qed.

Lemma runJob_frame s :
  let s' := final (runJob s) in
  entries s' = entries s /\ heap s' = heap s /\
  modalStack s' = modalStack s /\ stacks s' = stacks s /\
  vnodes s' = vnodes s /\ alreadyResolved s' = alreadyResolved s /\
  isUnmounted s' = isUnmounted s.
Proof.
  unfold runJob. destruct (jobs s) as [|[p t] rest]; [done|].
  destruct t as [v|e|]; cbv zeta.
  - apply (follow_frame p v (set_jobs (fun _ => rest) s)).
  - destruct (settle_frame p (Rejected e) (set_jobs (fun _ => rest) s))
      as (? & ? & ? & ? & ? & ? & ? & ?).
    by split_and!.
  - done.
Qed.

(** A promise that is not pending is out of reach of [resolve]. *)
Lemma promise_resolve_settled p v s :
  promises s !! p <> Some Pending ->
  let s' := final (promise_resolve p v s) in
  promises s' = promises s /\ log s' = log s.
Proof.
  intros Hp. unfold promise_resolve, first_call.
  destruct (alreadyResolved s !! p) as [[]|]; try done.
  destruct v; try (rewrite follow_plain, settle_settled by done; done).
  done.
Qed.

Lemma deliver_frame this name arg s :
  let s' := deliver this name arg s in
  entries s' = entries s /\ heap s' = heap s /\
  modalStack s' = modalStack s /\ stacks s' = stacks s /\
  promises s' = promises s /\ vnodes s' = vnodes s /\
  alreadyResolved s' = alreadyResolved s /\ jobs s' = jobs s /\
  isUnmounted s' = isUnmounted s /\
  log s' = log s ++ delivered s this [Emit this name arg].
Proof.
  unfold deliver, delivered. case_decide; cbn; by rewrite ?app_nil_r.
Qed.

Lemma deliver_eq this name arg s :
  deliver this name arg s =
    State (entries s) (heap s) (modalStack s) (stacks s) (promises s)
          (vnodes s) (log s ++ delivered s this [Emit this name arg])
          (alreadyResolved s) (jobs s) (isUnmounted s).
Proof.
  unfold deliver, delivered.
  case_decide; [destruct s; cbn; by rewrite app_nil_r | reflexivity].
Qed.

Lemma stack_of_deliver this name arg s j :
  stack_of (deliver this name arg s) j = stack_of s j.
Proof. unfold deliver, stack_of. by case_decide. Qed.

Lemma delivered_two s this e1 e2 :
  delivered s this [e1] ++ delivered s this [e2] = delivered s this [e1; e2].
Proof. unfold delivered. by case_decide. Qed.

Lemma onDismissModal_eq c r s :
  onDismissModal c r s =
    match heap s !! cl_entry c with
    | None => Throws "invalid reference" (unlisted c s)
    | Some e =>
        let s1 := final (promise_resolve (resolve e) r (unlisted c s)) in
        let b := (0 <? length (stack_of s1 (cl_this c)))%nat in
        Returns tt (deliver (cl_this c) "modals" b
                      (deliver (cl_this c) "modalCreated" b s1))
    end.
Proof.
  unfold onDismissModal, bind, gets, splice, ret, modify, deref, hasModals,
    emit, unlisted.
  destruct (0 <=? indexOf (cl_id c) (stack_of s (cl_this c)))%Z;
    unfold set_entries, set_stacks;
    cbn [entries heap modalStack stacks promises vnodes log alreadyResolved
         jobs isUnmounted];
    (destruct (heap s !! cl_entry c) as [e|]; [|reflexivity]);
    match goal with
    | |- context [promise_resolve ?p ?v ?s0] =>
        destruct (promise_resolve_returns p v s0) as [s1 ->]
    end;
    cbn [final]; cbv [gets modify]; by rewrite stack_of_deliver.
Qed.

Lemma render_entry_missing this id s :
  entries s !! id = None ->
  render_entry this id s =
    Throws "TypeError: Cannot read properties of undefined" s.
Proof. intros H. unfold render_entry, bind, gets. rewrite H. reflexivity. Qed.

Lemma render_entry_cached this id s v :
  cached s id v -> render_entry this id s = Returns v s.
Proof.
  intros (l & e & Hl & He & Hv). unfold render_entry, bind, gets, deref.
  rewrite Hl, He, Hv. reflexivity.
Qed.

Lemma render_entry_fresh this id s l e :
  entries s !! id = Some l -> heap s !! l = Some e -> vnode e = None ->
  let v := fresh_node this id l e (vnodes s) in
  let b := (0 <? length (stack_of s this))%nat in
  render_entry this id s =
    Returns v
      (State (entries s) (alter (with_vnode v) l (heap s)) (modalStack s)
             (stacks s) (promises s) (S (S (vnodes s)))
             (log s ++
                delivered s this
                  [Emit this "modalDismissed" b; Emit this "modals" b])
             (alreadyResolved s) (jobs s) (isUnmounted s)).
Proof.
  intros Hl He Hv v b. unfold render_entry, bind, gets, deref.
  rewrite Hl, He, Hv. unfold_m. unfold deliver, delivered, stack_of, add_log.
  cbn [entries heap modalStack stacks promises vnodes log alreadyResolved
       jobs isUnmounted].
  destruct (decide (this ∈ isUnmounted s)) as [Hu|Hu];
    cbn [entries heap modalStack stacks promises vnodes log alreadyResolved
         jobs isUnmounted];
    [rewrite decide_True by done | rewrite decide_False by done];
    cbn [entries heap modalStack stacks promises vnodes log alreadyResolved
         jobs isUnmounted];
    by rewrite ?app_nil_r, <- ?app_assoc.
Qed.

Lemma render_entry_dangling this id s l :
  entries s !! id = Some l -> heap s !! l = None ->
  render_entry this id s = Throws "invalid reference" s.
Proof.
  intros Hl He. unfold render_entry, bind, gets, deref.
  rewrite Hl, He. reflexivity.
Qed.

(** What [render_entry] can do, by cases. *)
Lemma render_entry_cases this id s :
  (entries s !! id = None /\
   render_entry this id s =
     Throws "TypeError: Cannot read properties of undefined" s) \/
  (exists l, entries s !! id = Some l /\ heap s !! l = None /\
   render_entry this id s = Throws "invalid reference" s) \/
  (exists v, cached s id v /\ render_entry this id s = Returns v s) \/
  (exists l e, entries s !! id = Some l /\ heap s !! l = Some e /\
     vnode e = None /\
     render_entry this id s =
       Returns (fresh_node this id l e (vnodes s))
         (State (entries s)
            (alter (with_vnode (fresh_node this id l e (vnodes s))) l (heap s))
            (modalStack s) (stacks s) (promises s) (S (S (vnodes s)))
            (log s ++
               delivered s this
                 [Emit this "modalDismissed"
                    (0 <? length (stack_of s this))%nat;
                  Emit this "modals" (0 <? length (stack_of s this))%nat])
            (alreadyResolved s) (jobs s) (isUnmounted s))).
Proof.
  destruct (entries s !! id) as [l|] eqn:Hl.
  - destruct (heap s !! l) as [e|] eqn:He.
    + destruct (vnode e) as [v|] eqn:Hv.
      * right; right; left. exists v. split; [by exists l, e|].
        apply render_entry_cached. by exists l, e.
      * right; right; right. exists l, e. repeat split; try done.
        by apply render_entry_fresh.
    + right; left. exists l. repeat split; try done.
      by apply (render_entry_dangling _ _ _ l).
  - left. split; [done|]. by apply render_entry_missing.
Qed.

(** ** What the operations leave unchanged *)

Lemma stack_of_unlisted c s j :
  stack_of (unlisted c s) j =
    if decide (j = cl_this c) then remove_first (cl_id c) (stack_of s j)
    else stack_of s j.
Proof.
  rewrite <- splice_indexOf. unfold unlisted, stack_of at 1. simpl.
  case_decide as Hj.
  - subst j. destruct (0 <=? indexOf _ _)%Z; [|done].
    by rewrite lookup_insert_eq.
  - destruct (0 <=? indexOf _ _)%Z; [|done].
    by rewrite lookup_insert_ne.
Qed.

Lemma onDismissModal_frame c r s :
  let s' := final (onDismissModal c r s) in
  entries s' = delete (cl_id c) (entries s) /\ heap s' = heap s /\
  modalStack s' = modalStack s /\ vnodes s' = vnodes s /\
  forall j, stack_of s' j = stack_of (unlisted c s) j.
Proof.
  rewrite onDismissModal_eq.
  destruct (heap s !! cl_entry c) as [e|]; [|done].
  destruct (promise_resolve_frame (resolve e) r (unlisted c s))
    as (He & Hh & Hm & Hs & Hv & _).
  cbv zeta in *. cbn [final]. rewrite !deliver_eq. unfold stack_of.
  cbn [entries heap modalStack stacks vnodes].
  rewrite He, Hh, Hm, Hs, Hv. done.
Qed.

Lemma final_bind {A B} (m : M state A) (k : A -> M state B) s :
  final (bind m k s) =
    match m s with
    | Returns a s' => final (k a s')
    | Throws _ s' => s'
    end.
Proof. unfold bind. by destruct (m s). Qed.

Lemma renders_refl s : renders s s.
Proof. by unfold renders. Qed.

Lemma renders_trans s1 s2 s3 : renders s1 s2 -> renders s2 s3 -> renders s1 s3.
Proof.
  unfold renders. intros (?&?&?&?&?) (?&?&?&?&?).
  split_and!; congruence.
Qed.

Lemma render_entry_frame this id s :
  renders s (final (render_entry this id s)).
Proof.
  destruct (render_entry_cases this id s)
    as [[_ ->]|[(l & _ & _ & ->)|[(v & _ & ->)|(l & e & _ & _ & _ & ->)]]];
    try apply renders_refl.
  unfold renders. cbn [final entries modalStack stacks promises heap].
  by rewrite length_alter.
Qed.

Lemma arrayMap_render_frame this ids : forall s,
  renders s (final (arrayMap (render_entry this) ids s)).
Proof.
  induction ids as [|id ids IH]; intros s; [apply renders_refl|].
  cbn [arrayMap]. rewrite final_bind.
  pose proof (render_entry_frame this id s) as Hf.
  destruct (render_entry this id s) as [v s1|err s1]; [|exact Hf].
  rewrite final_bind. specialize (IH s1).
  destruct (arrayMap (render_entry this) ids s1) as [vs s2|err s2];
    exact (renders_trans _ _ _ Hf IH).
Qed.

Lemma render_unfold this s :
  render this s = arrayMap (render_entry this) (stack_of s this) s.
Proof. reflexivity. Qed.

Lemma render_frame this s : renders s (final (render this s)).
Proof. rewrite render_unfold. apply arrayMap_render_frame. Qed.

(** ** Cached nodes *)

Lemma handler_of_fresh_node this id l e n :
  handler_of (fresh_node this id l e n) = Some (Closure this id l).
Proof.
  unfold handler_of, fresh_node. cbn [vchildren vprops].
  by rewrite lookup_insert_eq.
Qed.

(** A render of one entry leaves its node cached and keeps the others. *)
Lemma render_entry_caches this id s v s' :
  render_entry this id s = Returns v s' ->
  cached s' id v /\ forall id' v', cached s id' v' -> cached s' id' v'.
Proof.
  intros Hr.
  destruct (render_entry_cases this id s)
    as [[_ H]|[(l & _ & _ & H)|[(w & Hc & H)|(l & e & Hl & He & Hv & H)]]];
    rewrite H in Hr; try discriminate; injection Hr as <- <-.
  - done.
  - split.
    + exists l, (with_vnode (fresh_node this id l e (vnodes s)) e).
      cbn [entries heap]. split_and!; [done| |done].
      by rewrite list_lookup_alter_eq, He.
    + intros id' v' (l' & e' & Hl' & He' & Hv').
      exists l', e'. cbn [entries heap]. split_and!; [done| |done].
      rewrite list_lookup_alter_ne; [done|]. congruence.
Qed.

Lemma arrayMap_render_caches this ids : forall s vs s',
  arrayMap (render_entry this) ids s = Returns vs s' ->
  Forall2 (cached s') ids vs /\
  forall id' v', cached s id' v' -> cached s' id' v'.
Proof.
  induction ids as [|id ids IH]; intros s vs s' Hr.
  - injection Hr as <- <-. split; [constructor | done].
  - cbn [arrayMap] in Hr. unfold bind at 1 in Hr.
    destruct (render_entry this id s) as [v s1|] eqn:H1; [|discriminate].
    unfold bind at 1 in Hr.
    destruct (arrayMap (render_entry this) ids s1) as [ws s2|] eqn:H2;
      [|discriminate].
    injection Hr as <- <-.
    apply render_entry_caches in H1 as [Hc1 Hk1].
    apply IH in H2 as [Hc2 Hk2]. split; [|by auto].
    constructor; [by apply Hk2 | done].
Qed.

Lemma arrayMap_render_cached this ids s vs :
  Forall2 (cached s) ids vs ->
  arrayMap (render_entry this) ids s = Returns vs s.
Proof.
  induction 1 as [|id v ids vs Hc _ IH]; [done|].
  cbn [arrayMap].
  rewrite (bind_returns _ _ _ _ _ (render_entry_cached this id s v Hc)).
  rewrite (bind_returns _ _ _ _ _ IH). reflexivity.
Qed.

(** Rendering twice in a row: the second call returns the nodes of the
    first and changes nothing. *)
Lemma render_twice this s vs s' :
  render this s = Returns vs s' -> render this s' = Returns vs s'.
Proof.
  rewrite !render_unfold. intros Hr.
  pose proof (arrayMap_render_frame this (stack_of s this) s) as Hf.
  rewrite Hr in Hf. destruct Hf as (_ & _ & Hs & _).
  apply arrayMap_render_caches in Hr as [Hc _].
  unfold stack_of at 1. cbn [final] in Hs. rewrite Hs.
  by apply arrayMap_render_cached.
Qed.

(** The cache survives every operation that keeps the entry. *)
Lemma cached_step id v o s :
  keeps id o -> cached s id v -> cached (step o s) id v.
Proof.
  intros Hk (l & e & Hl & He & Hv). destruct o as [i|i|comp ps rnd|i|c r|i|];
    cbn [step keeps] in *.
  - unfold mounted, bind, gets. destruct (modalStack s); by exists l, e.
  - unfold beforeUnmount, bind, gets. case_decide; by exists l, e.
  - exists l, e. destruct (modalStack s) as [i|] eqn:Hm.
    + rewrite (createModal_mounted _ _ _ _ i Hm). cbn [final entries heap].
      rewrite lookup_insert_ne by done. split_and!; [done| |done].
      rewrite lookup_app_l; [done|]. by eapply lookup_lt_Some.
    + rewrite (createModal_unmounted _ _ _ _ Hm). cbn [final entries heap].
      rewrite lookup_insert_ne by done. split_and!; [done| |done].
      rewrite lookup_app_l; [done|]. by eapply lookup_lt_Some.
  - rewrite render_unfold.
    assert (forall ids s0, cached s0 id v ->
      cached (final (arrayMap (render_entry i) ids s0)) id v) as Hind.
    { induction ids as [|x ids IH]; intros s0 Hc; [done|].
      cbn [arrayMap]. rewrite final_bind.
      destruct (render_entry i x s0) as [w s1|err s1] eqn:H1.
      - rewrite final_bind. apply render_entry_caches in H1 as [_ H1].
        specialize (IH s1 (H1 _ _ Hc)).
        by destruct (arrayMap (render_entry i) ids s1).
      - destruct (render_entry_cases i x s0)
          as [[_ H]|[(? & _ & _ & H)|[(? & _ & H)|(? & ? & _ & _ & _ & H)]]];
          rewrite H in H1; try discriminate; by injection H1 as _ <-. }
    apply Hind. by exists l, e.
  - destruct (onDismissModal_frame c r s) as (Hen & Hh & _).
    exists l, e. rewrite Hen, Hh. by rewrite lookup_delete_ne.
  - by exists l, e.
  - destruct (runJob_frame s) as (Hen & Hh & _).
    exists l, e. by rewrite Hen, Hh.
Qed.

Lemma cached_run id v tr : forall s,
  Forall (keeps id) tr -> cached s id v -> cached (run tr s) id v.
Proof.
  induction tr as [|o tr IH]; intros s Hk Hc; [done|].
  inversion Hk; subst. cbn. apply IH; [done|]. by apply cached_step.
Qed.

(** ** Well-formedness is invariant *)

Lemma wf_initial : wf initial.
Proof. split; intros *; cbn; by rewrite ?lookup_empty. Qed.

Lemma wf_ext s s' :
  entries s' = entries s -> heap s' = heap s -> wf s -> wf s'.
Proof. intros He Hh [H1 H2 H3]. split; rewrite ?He, ?Hh; eauto. Qed.

Lemma createModal_registry comp ps rnd s :
  let s' := final (createModal comp ps rnd s) in
  entries s' = <[gen_id rnd := length (heap s)]> (entries s) /\
  heap s' = heap s ++ [Entry comp ps (length (promises s)) None].
Proof.
  destruct (modalStack s) as [i|] eqn:Hm.
  - by rewrite (createModal_mounted _ _ _ _ i Hm).
  - by rewrite (createModal_unmounted _ _ _ _ Hm).
Qed.

Lemma wf_createModal comp ps rnd s :
  wf s -> wf (final (createModal comp ps rnd s)).
Proof.
  intros [H1 H2 H3].
  destruct (createModal_registry comp ps rnd s) as [He Hh].
  split; rewrite ?He, ?Hh.
  - intros id l. rewrite length_app, lookup_insert. cbn.
    case_decide; [intros [= <-]; lia|]. intros Hx. apply H1 in Hx. lia.
  - intros id id' l. rewrite !lookup_insert.
    repeat case_decide; subst; try done.
    + intros [= <-] Hx. apply H1 in Hx. lia.
    + intros Hx [= <-]. apply H1 in Hx. lia.
    + apply H2.
  - intros id l e v. rewrite lookup_insert. case_decide.
    + intros [= <-]. rewrite lookup_snoc. by intros [= <-].
    + intros Hl. rewrite lookup_app_l by eauto. eauto.
Qed.

Lemma wf_onDismissModal c r s :
  wf s -> wf (final (onDismissModal c r s)).
Proof.
  intros [H1 H2 H3].
  destruct (onDismissModal_frame c r s) as (He & Hh & _).
  split; rewrite ?He, ?Hh.
  - intros id l [_ H]%lookup_delete_Some. eauto.
  - intros id id' l [_ H]%lookup_delete_Some [_ H']%lookup_delete_Some. eauto.
  - intros id l e v [_ H]%lookup_delete_Some. eauto.
Qed.

Lemma wf_render_entry this id s :
  wf s -> wf (final (render_entry this id s)).
Proof.
  intros Hwf.
  destruct (render_entry_cases this id s)
    as [[_ ->]|[(l & _ & _ & ->)|[(v & _ & ->)|(l & e & Hl & He & Hv & ->)]]];
    try done.
  destruct Hwf as [H1 H2 H3]. cbn [final]. split; cbn [entries heap].
  - intros id' l' H. rewrite length_alter. eauto.
  - done.
  - intros id' l' e' v' Hl'. destruct (decide (l' = l)) as [->|Hne].
    + assert (id' = id) as -> by eauto.
      rewrite list_lookup_alter_eq, He. intros [= <-] [= <-].
      exists this. apply handler_of_fresh_node.
    + rewrite list_lookup_alter_ne by done. eauto.
Qed.

Lemma wf_arrayMap_render this ids : forall s,
  wf s -> wf (final (arrayMap (render_entry this) ids s)).
Proof.
  induction ids as [|id ids IH]; intros s Hwf; [done|].
  cbn [arrayMap]. rewrite final_bind.
  pose proof (wf_render_entry this id s Hwf) as H1.
  destruct (render_entry this id s) as [v s1|err s1]; [|done].
  rewrite final_bind. specialize (IH s1 H1).
  by destruct (arrayMap (render_entry this) ids s1).
Qed.

Lemma wf_step o s : wf s -> wf (step o s).
Proof.
  intros Hwf. destruct o as [i|i|comp ps rnd|i|c r|i|]; cbn [step].
  - unfold mounted, bind, gets.
    destruct (modalStack s); apply (wf_ext s); reflexivity || assumption.
  - unfold beforeUnmount, bind, gets.
    destruct (decide (modalStack s = Some i));
      apply (wf_ext s); reflexivity || assumption.
  - by apply wf_createModal.
  - rewrite render_unfold. by apply wf_arrayMap_render.
  - by apply wf_onDismissModal.
  - by apply (wf_ext s).
  - destruct (runJob_frame s) as (He & Hh & _). by apply (wf_ext s).
Qed.

Lemma wf_run tr : forall s, wf s -> wf (run tr s).
Proof.
  induction tr as [|o tr IH]; intros s Hwf; [done|].
  cbn. apply IH. by apply wf_step.
Qed.

(** ** Stack and registry in step *)

Lemma synced_length i s :
  synced i s -> length (stack_of s i) = size (entries s).
Proof.
  intros [_ Hnd Hdom].
  rewrite <- (size_dom (D := gset string)).
  rewrite <- (size_list_to_set (C := gset string)) by done.
  f_equal. apply set_eq. intros id.
  by rewrite elem_of_list_to_set, elem_of_dom.
Qed.

Lemma synced_mount i : synced i (step (Mount i) initial).
Proof.
  split; cbn.
  - done.
  - constructor.
  - intros id. unfold stack_of. cbn. rewrite lookup_empty. cbn.
    rewrite elem_of_nil. split; [done|]. by intros [? ?].
Qed.

Lemma synced_createModal i comp ps rnd s :
  synced i s -> entries s !! gen_id rnd = None ->
  synced i (final (createModal comp ps rnd s)).
Proof.
  intros [Hm Hnd Hdom] Hfresh.
  rewrite (createModal_mounted _ _ _ _ i Hm). cbn [final].
  assert (stack_of
    (State (<[gen_id rnd := length (heap s)]> (entries s))
       (heap s ++ [Entry comp ps (length (promises s)) None]) (Some i)
       (<[i := stack_of s i ++ [gen_id rnd]]> (stacks s))
       (promises s ++ [Pending]) (vnodes s) (log s)
       (<[length (promises s) := false]> (alreadyResolved s)) (jobs s)
       (isUnmounted s)) i
    = stack_of s i ++ [gen_id rnd]) as Hst.
  { unfold stack_of at 1. cbn [stacks]. by rewrite lookup_insert_eq. }
  split; rewrite ?Hst; cbn [modalStack entries].
  - done.
  - apply NoDup_app. split_and!; [done| |apply NoDup_singleton].
    intros id Hin ->%list_elem_of_singleton.
    apply Hdom in Hin as [l Hl]. congruence.
  - intros id. rewrite elem_of_app, list_elem_of_singleton, lookup_insert.
    case_decide as Hid.
    + subst id. split; [by eauto | by right].
    + rewrite Hdom. split; [by intros [?|?] | by left].
Qed.

Lemma synced_renders i s s' : renders s s' -> synced i s -> synced i s'.
Proof.
  intros (He & Hm & Hs & _) [H1 H2 H3].
  split; unfold stack_of in *; rewrite ?He, ?Hm, ?Hs; done.
Qed.

Lemma synced_onDismissModal c r s :
  synced (cl_this c) s -> synced (cl_this c) (final (onDismissModal c r s)).
Proof.
  intros [Hm Hnd Hdom].
  destruct (onDismissModal_frame c r s) as (He & _ & Hms & _ & Hst).
  split; rewrite ?Hst, ?Hms, ?He, ?stack_of_unlisted, ?decide_True by done.
  - done.
  - by apply NoDup_remove_first.
  - intros id. destruct (decide (id = cl_id c)) as [->|Hne].
    + rewrite lookup_delete_eq. split.
      * intros Hin. by apply remove_first_NoDup_absent in Hin.
      * by intros [? ?].
    + rewrite lookup_delete_ne by done. rewrite <- Hdom. split.
      * apply elem_of_remove_first.
      * by apply elem_of_remove_first_ne.
Qed.

Lemma synced_step i o s :
  synced i s -> collision_free i [o] s -> synced i (step o s).
Proof.
  intros Hs [Ho _]. destruct o as [j|j|comp ps rnd|j|c r|j|]; cbn [step];
    try done.
  - by apply synced_createModal.
  - subst j. eapply synced_renders; [apply render_frame | done].
  - subst i. by apply synced_onDismissModal.
Qed.

Lemma synced_run i tr : forall s,
  synced i s -> collision_free i tr s -> synced i (run tr s).
Proof.
  induction tr as [|o tr IH]; intros s Hs Hcf; [done|].
  destruct Hcf as [Ho Htr]. cbn. apply IH; [|done].
  apply synced_step; [done|]. by split.
Qed.

Lemma collision_free_take i k : forall tr s,
  collision_free i tr s -> collision_free i (take k tr) s.
Proof.
  induction k as [|k IH]; intros [|o tr] s; try done.
  intros [Ho Htr]. split; [done|]. by apply IH.
Qed.

(** ** Stepping through a program *)

Lemma bind_gets {A B} (f : state -> A) (k : A -> M state B) s :
  bind (gets f) k s = k (f s) s.
Proof. reflexivity. Qed.

Lemma bind_ret {A B} (a : A) (k : A -> M state B) s : bind (ret a) k s = k a s.
Proof. reflexivity. Qed.

Lemma bind_bind {A B C} (m : M state A) (k : A -> M state B)
    (k' : B -> M state C) s :
  bind (bind m k) k' s = bind m (fun a => bind (k a) k') s.
Proof. unfold bind. by destruct (m s). Qed.

Ltac norm :=
  cbv [set_modalStack set_entries set_heap set_stacks set_promises set_vnodes
       set_alreadyResolved set_jobs set_isUnmounted
       add_log initial id stack_of];
  cbn [entries heap modalStack stacks promises vnodes log alreadyResolved
       jobs isUnmounted length app
       component props resolve vnode cl_this cl_id cl_entry
       alter list_alter with_vnode];
  rewrite ?lookup_empty, ?lookup_insert_eq; cbn [default app].

Lemma delivered_ext s s' this evs :
  isUnmounted s' = isUnmounted s -> delivered s' this evs = delivered s this evs.
Proof. unfold delivered. by intros ->. Qed.

Lemma delivered_live s this evs :
  this ∉ isUnmounted s -> delivered s this evs = evs.
Proof. intros H. unfold delivered. by rewrite decide_False. Qed.

Lemma delivered_dead s this evs :
  this ∈ isUnmounted s -> delivered s this evs = [].
Proof. intros H. unfold delivered. by rewrite decide_True. Qed.

(** A dismissal through a hook whose entry object exists: what the call
    of [resolve] leaves is taken on by the two calls of [$emit]. *)
Lemma onDismissModal_spec c r s e :
  heap s !! cl_entry c = Some e ->
  let s1 := final (promise_resolve (resolve e) r (unlisted c s)) in
  let b := (0 <? length (stack_of (unlisted c s) (cl_this c)))%nat in
  onDismissModal c r s =
    Returns tt
      (State (delete (cl_id c) (entries s)) (heap s) (modalStack s)
         (stacks (unlisted c s)) (promises s1) (vnodes s)
         (log s1 ++
            delivered s (cl_this c)
              [Emit (cl_this c) "modalCreated" b; Emit (cl_this c) "modals" b])
         (alreadyResolved s1) (jobs s1) (isUnmounted s)).
Proof.
  intros He. rewrite onDismissModal_eq, He. cbv zeta.
  destruct (promise_resolve_frame (resolve e) r (unlisted c s))
    as (Hen & Hh & Hm & Hs & Hv & Hu).
  cbv zeta in *. rewrite !deliver_eq. unfold stack_of.
  cbn [entries heap modalStack stacks promises vnodes log alreadyResolved
       jobs isUnmounted].
  rewrite Hen, Hh, Hm, Hs, Hv, Hu, <- app_assoc.
  rewrite (delivered_ext (unlisted c s)) by (cbn; exact Hu).
  rewrite (delivered_ext (unlisted c s)
             (State _ _ _ _ _ _ _ _ _ _)) by (cbn; reflexivity).
  rewrite delivered_two. reflexivity.
Qed.

(** The dismissal of an entry whose promise has not been resolved, with a
    result that is not a thenable. *)
Lemma onDismissModal_pending c r s e :
  heap s !! cl_entry c = Some e ->
  promises s !! resolve e = Some Pending ->
  alreadyResolved s !! resolve e = Some false ->
  is_thenable r = false ->
  exists s',
    onDismissModal c r s = Returns tt s' /\
    entries s' = delete (cl_id c) (entries s) /\
    heap s' = heap s /\ modalStack s' = modalStack s /\
    vnodes s' = vnodes s /\
    promises s' = <[resolve e := Fulfilled r]> (promises s) /\
    (forall j, stack_of s' j = stack_of (unlisted c s) j) /\
    log s' = log s ++
      Settled (resolve e) (Fulfilled r) ::
      delivered s (cl_this c)
        [Emit (cl_this c) "modalCreated"
              (0 <? length (stack_of (unlisted c s) (cl_this c)))%nat;
         Emit (cl_this c) "modals"
              (0 <? length (stack_of (unlisted c s) (cl_this c)))%nat] /\
    alreadyResolved s' = <[resolve e := true]> (alreadyResolved s) /\
    jobs s' = jobs s /\ isUnmounted s' = isUnmounted s.
Proof.
  intros He Hp Ha Hr. rewrite (onDismissModal_spec c r s e He). cbv zeta.
  rewrite promise_resolve_first by done. eexists. split; [reflexivity|].
  cbn [final]. unfold add_log, set_promises, set_alreadyResolved, stack_of.
  cbn [entries heap modalStack stacks promises vnodes log alreadyResolved
       jobs isUnmounted].
  rewrite <- !app_assoc. done.
Qed.

(** The dismissal of an entry whose promise is settled. *)
Lemma onDismissModal_settled c r s e :
  heap s !! cl_entry c = Some e ->
  promises s !! resolve e <> Some Pending ->
  exists s',
    onDismissModal c r s = Returns tt s' /\
    entries s' = delete (cl_id c) (entries s) /\
    heap s' = heap s /\ modalStack s' = modalStack s /\
    vnodes s' = vnodes s /\
    promises s' = promises s /\
    (forall j, stack_of s' j = stack_of (unlisted c s) j) /\
    log s' = log s ++
      delivered s (cl_this c)
        [Emit (cl_this c) "modalCreated"
              (0 <? length (stack_of (unlisted c s) (cl_this c)))%nat;
         Emit (cl_this c) "modals"
              (0 <? length (stack_of (unlisted c s) (cl_this c)))%nat] /\
    isUnmounted s' = isUnmounted s.
Proof.
  intros He Hp. rewrite (onDismissModal_spec c r s e He). cbv zeta.
  destruct (promise_resolve_settled (resolve e) r (unlisted c s) Hp)
    as [Hpr Hlog].
  cbv zeta in *. rewrite Hpr, Hlog. eexists. split; [reflexivity|].
  unfold stack_of.
  cbn [entries heap modalStack stacks promises vnodes log alreadyResolved
       jobs isUnmounted].
  done.
Qed.

(** The dismissal of an entry whose [resolve] has been called before. *)
Lemma onDismissModal_again c r s e :
  heap s !! cl_entry c = Some e ->
  alreadyResolved s !! resolve e <> Some false ->
  exists s',
    onDismissModal c r s = Returns tt s' /\
    promises s' = promises s /\ alreadyResolved s' = alreadyResolved s /\
    jobs s' = jobs s /\
    log s' = log s ++
      delivered s (cl_this c)
        [Emit (cl_this c) "modalCreated"
              (0 <? length (stack_of (unlisted c s) (cl_this c)))%nat;
         Emit (cl_this c) "modals"
              (0 <? length (stack_of (unlisted c s) (cl_this c)))%nat].
Proof.
  intros He Ha. rewrite (onDismissModal_spec c r s e He). cbv zeta.
  rewrite promise_resolve_again by done. eexists. split; [reflexivity|].
  cbn [final entries heap modalStack stacks promises vnodes log
       alreadyResolved jobs isUnmounted unlisted].
  done.
Qed.

(** The dismissal, with a thenable, of an entry whose [resolve] has not
    been called: the promise stays as it is and a job is queued. *)
Lemma onDismissModal_thenable c t s e :
  heap s !! cl_entry c = Some e ->
  alreadyResolved s !! resolve e = Some false ->
  exists s',
    onDismissModal c (VThenable t) s = Returns tt s' /\
    promises s' = promises s /\
    alreadyResolved s' = <[resolve e := true]> (alreadyResolved s) /\
    jobs s' = jobs s ++ [(resolve e, t)] /\
    log s' = log s ++
      delivered s (cl_this c)
        [Emit (cl_this c) "modalCreated"
              (0 <? length (stack_of (unlisted c s) (cl_this c)))%nat;
         Emit (cl_this c) "modals"
              (0 <? length (stack_of (unlisted c s) (cl_this c)))%nat].
Proof.
  intros He Ha. rewrite (onDismissModal_spec c _ s e He). cbv zeta.
  rewrite promise_resolve_thenable by done. eexists. split; [reflexivity|].
  cbn [final entries heap modalStack stacks promises vnodes log
       alreadyResolved jobs isUnmounted unlisted set_jobs
       set_alreadyResolved].
  done.
Qed.

Ltac step_by lem :=
  erewrite bind_returns by (apply lem; first [reflexivity | done]); cbv beta.

Lemma arrayMap_cons_returns {A B} (f : A -> M state B) x r s v s1 vs s2 :
  f x s = Returns v s1 -> arrayMap f r s1 = Returns vs s2 ->
  arrayMap f (x :: r) s = Returns (v :: vs) s2.
Proof.
  intros H1 H2. cbn [arrayMap].
  rewrite (bind_returns _ _ _ _ _ H1), (bind_returns _ _ _ _ _ H2). done.
Qed.

Ltac lookups :=
  repeat first [ rewrite lookup_insert_eq
               | rewrite lookup_insert_ne by done
               | rewrite lookup_delete_eq
               | rewrite lookup_delete_ne by done ].
Ltac render_fresh :=
  eapply arrayMap_cons_returns;
  [ apply render_entry_fresh; norm; lookups; reflexivity |].
Ltac render_cached :=
  eapply arrayMap_cons_returns;
  [ apply render_entry_cached; eexists _, _; split_and!; norm; lookups;
    reflexivity |].

(** The second half of the scenario, from any state in which both modals
    are on the stack, rendered and pending. *)
Lemma dismiss_both_spec this idA idB lA lB eA eB vA vB x y again s :
  idA <> idB ->
  stack_of s this = [idA; idB] ->
  entries s !! idB = Some lB ->
  heap s !! lA = Some eA -> heap s !! lB = Some eB ->
  vnode eB = Some vB ->
  handler_of vA = Some (Closure this idA lA) ->
  handler_of vB = Some (Closure this idB lB) ->
  resolve eA <> resolve eB ->
  promises s !! resolve eA = Some Pending ->
  promises s !! resolve eB = Some Pending ->
  alreadyResolved s !! resolve eA = Some false ->
  alreadyResolved s !! resolve eB = Some false ->
  is_thenable x = false -> is_thenable y = false ->
  exists s',
    dismiss_both this (resolve eA) (resolve eB) x y again [vA; vB] s =
      Returns ([[idB]; []], [Some (Fulfilled x); Some (Fulfilled y)]) s'.
Proof.
  intros Hne Hst HlB HeA HeB HvB HhA HhB Hp HpA HpB HaA HaB Hx Hy.
  unfold dismiss_both. cbn [fmap list_fmap]. rewrite HhA, HhB.
  destruct (onDismissModal_pending (Closure this idA lA) x s eA HeA HpA HaA Hx)
    as (s3 & Hd3 & Hen3 & Hhp3 & _ & _ & Hpr3 & Hst3 & _ & Har3 & _).
  rewrite (bind_returns _ _ _ _ _ Hd3). rewrite !bind_gets.
  assert (stack_of s3 this = [idB]) as Hstack3.
  { rewrite Hst3, stack_of_unlisted. cbn [cl_this cl_id].
    rewrite decide_True, Hst by done. cbn [remove_first].
    by rewrite decide_True. }
  assert (promises s3 !! resolve eB = Some Pending) as HpB3.
  { rewrite Hpr3, list_lookup_insert_ne; done. }
  assert (promises s3 !! resolve eA = Some (Fulfilled x)) as HpA3.
  { rewrite Hpr3. apply list_lookup_insert_eq. by eapply lookup_lt_Some. }
  assert (((if again then render this >> ret () else ret ()) s3)
          = Returns tt s3) as Hagain.
  { destruct again; [|done].
    assert (render this s3 = Returns [vB] s3) as Hr.
    { rewrite render_unfold, Hstack3. apply arrayMap_render_cached.
      constructor; [|constructor]. exists lB, eB. cbn [cl_id] in Hen3.
      rewrite Hen3, Hhp3. rewrite lookup_delete_ne by done. done. }
    by rewrite (bind_returns _ _ _ _ _ Hr). }
  rewrite (bind_returns _ _ _ _ _ Hagain).
  rewrite <- Hhp3 in HeB.
  assert (alreadyResolved s3 !! resolve eB = Some false) as HaB3.
  { rewrite Har3, lookup_insert_ne; done. }
  destruct (onDismissModal_pending (Closure this idB lB) y s3 eB HeB HpB3
              HaB3 Hy)
    as (s4 & Hd4 & _ & _ & _ & _ & Hpr4 & Hst4 & _).
  rewrite (bind_returns _ _ _ _ _ Hd4). rewrite !bind_gets.
  exists s4. unfold ret. repeat f_equal.
  - done.
  - rewrite Hst4, stack_of_unlisted. cbn [cl_this cl_id].
    rewrite decide_True, Hstack3 by done. cbn [remove_first].
    by rewrite decide_True.
  - done.
  - rewrite Hpr4. apply list_lookup_insert_eq. by eapply lookup_lt_Some.
Qed.

Ltac close_scenario this idA idB x y again :=
  lazymatch goal with
  | |- exists _, bind (dismiss_both _ _ _ _ _ _ [?vA; ?vB]) _
                   (State ?en [?eA; ?eB] ?ms ?st ?ps ?vn ?lg ?ar ?jb ?um) = _ =>
      destruct (dismiss_both_spec this idA idB 0 1 eA eB vA vB x y again
                  (State en [eA; eB] ms st ps vn lg ar jb um)) as [s' Hs'];
      [ done
      | norm; lookups; reflexivity
      | norm; lookups; reflexivity
      | reflexivity | reflexivity | reflexivity
      | apply handler_of_fresh_node
      | apply handler_of_fresh_node
      | done | reflexivity | reflexivity
      | norm; lookups; reflexivity
      | norm; lookups; reflexivity
      | reflexivity | reflexivity
      | cbn [resolve with_vnode] in Hs';
        rewrite (bind_returns _ _ _ _ _ Hs'); eexists; reflexivity ]
  end.

(** ** Logs and occurrences *)


Lemma emitted_app i name l1 l2 :
  emitted i name (l1 ++ l2) = emitted i name l1 ++ emitted i name l2.
Proof.
  induction l1 as [|[msg|j n b|q st] l1 IH]; cbn; try done.
  case_decide; by rewrite IH.
Qed.

Lemma elem_of_occurrences x l : x ∈ l <-> 1 <= occurrences x l.
Proof.
  induction l as [|y l IH]; cbn.
  - rewrite elem_of_nil. lia.
  - rewrite elem_of_cons, IH. case_decide as Hy.
    + subst. split; [lia | by left].
    + split; [|by right]. intros [Hx|Hx]; [congruence | done].
Qed.

Lemma occurrences_remove_first x l :
  occurrences x (remove_first x l) = pred (occurrences x l).
Proof.
  induction l as [|y l IH]; cbn; [done|].
  case_decide as Hy; [done|]. cbn. by rewrite decide_False.
Qed.

(** The promise an entry resolves is the one [createModal] returned when
    it made the entry... *)
Lemma createModal_registers comp ps rnd s i :
  modalStack s = Some i ->
  exists s',
    createModal comp ps rnd s = Returns (length (promises s)) s' /\
    entries s' !! gen_id rnd = Some (length (heap s)) /\
    heap s' !! length (heap s)
      = Some (Entry comp ps (length (promises s)) None) /\
    promises s' !! length (promises s) = Some Pending /\
    stack_of s' i = stack_of s i ++ [gen_id rnd].
Proof.
  intros Hm. rewrite (createModal_mounted _ _ _ _ i Hm). eexists.
  split; [reflexivity|]. unfold stack_of.
  cbn [entries heap stacks promises]. split_and!.
  - apply lookup_insert_eq.
  - apply lookup_snoc.
  - apply lookup_snoc.
  - by rewrite lookup_insert_eq.
Qed.

(** ... and no operation changes which promise that is. *)
Lemma resolve_stable o s l e :
  heap s !! l = Some e ->
  exists e', heap (step o s) !! l = Some e' /\ resolve e' = resolve e.
Proof.
  intros He. destruct o as [i|i|comp ps rnd|i|c r|i|]; cbn [step];
    [..|by exists e|exists e; by destruct (runJob_frame s) as (_ & -> & _)].
  - exists e. unfold mounted, bind, gets. by destruct (modalStack s).
  - exists e. unfold beforeUnmount, bind, gets.
    by destruct (decide (modalStack s = Some i)).
  - exists e. destruct (createModal_registry comp ps rnd s) as [_ ->].
    split; [|done]. rewrite lookup_app_l; [done|]. by eapply lookup_lt_Some.
  - rewrite render_unfold. generalize (stack_of s i) as ids. intros ids.
    revert s e He. induction ids as [|id ids IH]; intros s e He; [by exists e|].
    cbn [arrayMap]. rewrite final_bind.
    assert (exists e1, heap (final (render_entry i id s)) !! l = Some e1 /\
                       resolve e1 = resolve e) as (e1 & He1 & Hr1).
    { destruct (render_entry_cases i id s)
        as [[_ ->]|[(? & _ & _ & ->)|[(? & _ & ->)|(l' & e' & _ & He' & _ & ->)]]];
        try by exists e.
      cbn [final heap]. destruct (decide (l' = l)) as [->|Hne].
      - exists (with_vnode (fresh_node i id l e' (vnodes s)) e').
        rewrite list_lookup_alter_eq, He'. split; [done|].
        cbn. congruence.
      - exists e. by rewrite list_lookup_alter_ne. }
    destruct (render_entry i id s) as [v s1|err s1]; cbn [final] in He1.
    + rewrite final_bind. destruct (IH s1 e1 He1) as (e2 & He2 & Hr2).
      exists e2. split; [|congruence].
      by destruct (arrayMap (render_entry i) ids s1).
    + by exists e1.
  - exists e. by destruct (onDismissModal_frame c r s) as (_ & -> & _).
Qed.

(** Settling a promise emits no event. *)
Lemma settle_log p st s :
  exists pre,
    log (final (settle p st s)) = log s ++ pre /\
    (pre = [] \/ pre = [Settled p st]).
Proof.
  unfold settle. destruct (promises s !! p) as [[]|];
    first [ by exists []; rewrite app_nil_r; auto
          | by exists [Settled p st]; auto ].
Qed.

Lemma follow_log p v s :
  exists pre,
    log (final (follow p v s)) = log s ++ pre /\
    (pre = [] \/ pre = [Settled p (Fulfilled v)]).
Proof.
  destruct v; try apply settle_log.
  exists []. cbn. rewrite app_nil_r. auto.
Qed.

Lemma promise_resolve_log p v s :
  exists pre,
    log (final (promise_resolve p v s)) = log s ++ pre /\
    (pre = [] \/ pre = [Settled p (Fulfilled v)]).
Proof.
  unfold promise_resolve, first_call.
  destruct (alreadyResolved s !! p) as [[]|];
    try (exists []; rewrite app_nil_r; by auto).
  apply (follow_log p v (set_alreadyResolved <[p:=true]> s)).
Qed.

Ltac solve_emitted :=
  cbn [emitted app]; repeat case_decide; rewrite ?app_nil_r;
  first [ done | exfalso; intuition (discriminate || congruence) ].

(** What each operation emits. *)
Lemma createModal_emits_nothing comp ps rnd s i name :
  emitted i name (log (final (createModal comp ps rnd s)))
  = emitted i name (log s).
Proof.
  destruct (modalStack s) as [j|] eqn:Hm.
  - by rewrite (createModal_mounted _ _ _ _ j Hm).
  - rewrite (createModal_unmounted _ _ _ _ Hm). cbn [final log].
    rewrite emitted_app. cbn. by rewrite app_nil_r.
Qed.

Lemma first_render_emits_modalDismissed this id s l e :
  entries s !! id = Some l -> heap s !! l = Some e -> vnode e = None ->
  this ∉ isUnmounted s ->
  let s' := final (render_entry this id s) in
  let b := (0 <? length (stack_of s this))%nat in
  emitted this "modalDismissed" (log s')
    = emitted this "modalDismissed" (log s) ++ [b] /\
  emitted this "modals" (log s') = emitted this "modals" (log s) ++ [b] /\
  emitted this "modalCreated" (log s') = emitted this "modalCreated" (log s).
Proof.
  intros Hl He Hv Hu. rewrite (render_entry_fresh this id s l e Hl He Hv).
  cbn [final log]. rewrite delivered_live by done. rewrite !emitted_app.
  split_and!; solve_emitted.
Qed.

Lemma dismissal_emits_modalCreated c r s e :
  heap s !! cl_entry c = Some e ->
  cl_this c ∉ isUnmounted s ->
  let s' := final (onDismissModal c r s) in
  let b := (0 <? length (stack_of s' (cl_this c)))%nat in
  emitted (cl_this c) "modalCreated" (log s')
    = emitted (cl_this c) "modalCreated" (log s) ++ [b] /\
  emitted (cl_this c) "modals" (log s')
    = emitted (cl_this c) "modals" (log s) ++ [b] /\
  emitted (cl_this c) "modalDismissed" (log s')
    = emitted (cl_this c) "modalDismissed" (log s).
Proof.
  intros He Hu. rewrite (onDismissModal_spec c r s e He). cbv zeta.
  cbn [final log]. unfold stack_of at 1 2 3. cbn [stacks].
  fold (stack_of (unlisted c s) (cl_this c)).
  rewrite delivered_live by done.
  assert (forall i n,
    emitted i n (log (final (promise_resolve (resolve e) r (unlisted c s))))
    = emitted i n (log s)) as Hpre.
  { intros i n.
    destruct (promise_resolve_log (resolve e) r (unlisted c s))
      as (pre & -> & [->| ->]); rewrite emitted_app; cbn [unlisted log];
      cbn; by rewrite app_nil_r. }
  rewrite !emitted_app, !Hpre.
  split_and!; solve_emitted.
Qed.

(** ** What an operation can do to a promise *)

Lemma createModal_promises comp ps rnd s :
  exists st, promises (final (createModal comp ps rnd s)) = promises s ++ [st].
Proof.
  destruct (modalStack s) as [i|] eqn:Hm.
  - rewrite (createModal_mounted _ _ _ _ i Hm). by eexists.
  - rewrite (createModal_unmounted _ _ _ _ Hm). by eexists.
Qed.

Lemma render_promises this s :
  promises (final (render this s)) = promises s.
Proof. by destruct (render_frame this s) as (_ & _ & _ & -> & _). Qed.

(** What the primitives can do to a promise that exists. *)
Lemma settle_change p st s q x :
  promises s !! q = Some x ->
  promises (final (settle p st s)) !! q = Some x \/
  x = Pending /\ q = p /\ promises (final (settle p st s)) !! q = Some st.
Proof.
  intros Hq. unfold settle.
  destruct (promises s !! p) as [[]|] eqn:Hp; try by left.
  cbn [final add_log set_promises promises].
  destruct (decide (q = p)) as [->|Hne].
  - right. rewrite Hp in Hq. injection Hq as <-. split_and!; try done.
    apply list_lookup_insert_eq. by eapply lookup_lt_Some.
  - left. by rewrite list_lookup_insert_ne.
Qed.

Lemma follow_change p v s q x :
  promises s !! q = Some x ->
  promises (final (follow p v s)) !! q = Some x \/
  x = Pending /\ q = p /\ is_thenable v = false /\
  promises (final (follow p v s)) !! q = Some (Fulfilled v).
Proof.
  intros Hq. destruct v as [| | | |t]; [..|by left];
    cbn [follow];
    match goal with
    | |- context [settle p ?st s] =>
        destruct (settle_change p st s q x Hq) as [H|(? & ? & H)];
          [left; exact H | right; by split_and!]
    end.
Qed.

Lemma promise_resolve_change p v s q x :
  promises s !! q = Some x ->
  promises (final (promise_resolve p v s)) !! q = Some x \/
  x = Pending /\ q = p /\ is_thenable v = false /\
  promises (final (promise_resolve p v s)) !! q = Some (Fulfilled v).
Proof.
  intros Hq. unfold promise_resolve, first_call.
  destruct (alreadyResolved s !! p) as [[]|]; try by left.
  by apply (follow_change p v (set_alreadyResolved <[p:=true]> s)).
Qed.

Lemma runJob_change s q x :
  promises s !! q = Some x ->
  promises (final (runJob s)) !! q = Some x \/
  x = Pending /\
  exists t rest, jobs s = (q, t) :: rest /\
    ((exists v, t = TResolves v /\ is_thenable v = false /\
                promises (final (runJob s)) !! q = Some (Fulfilled v)) \/
     (exists e, t = TRejects e /\
                promises (final (runJob s)) !! q = Some (Rejected e))).
Proof.
  intros Hq. unfold runJob. destruct (jobs s) as [|[p t] rest]; [by left|].
  destruct t as [v|e|]; cbv zeta; [| |by left].
  - destruct (follow_change p v (set_jobs (fun _ => rest) s) q x Hq)
      as [H|(-> & -> & Hv & H)]; [by left|].
    right. split; [done|]. exists (TResolves v), rest. split; [done|].
    left. by exists v.
  - destruct (settle_change p (Rejected e) (set_jobs (fun _ => rest) s) q x Hq)
      as [H|(-> & -> & H)]; [by left|].
    right. split; [done|]. exists (TRejects e), rest. split; [done|].
    right. by exists e.
Qed.

Lemma onDismissModal_promises c r s e :
  heap s !! cl_entry c = Some e ->
  promises (final (onDismissModal c r s))
  = promises (final (promise_resolve (resolve e) r (unlisted c s))).
Proof. intros He. by rewrite (onDismissModal_spec c r s e He). Qed.

(** What one operation can do to a promise that exists. *)
Lemma promise_step o s p st :
  promises s !! p = Some st ->
  promises (step o s) !! p = Some st \/
  st = Pending /\
  ((exists c r e, o = Dismiss c r /\ heap s !! cl_entry c = Some e /\
                  resolve e = p /\ is_thenable r = false /\
                  promises (step o s) !! p = Some (Fulfilled r)) \/
   (exists t rest, o = Job /\ jobs s = (p, t) :: rest /\
      ((exists v, t = TResolves v /\ is_thenable v = false /\
                  promises (step o s) !! p = Some (Fulfilled v)) \/
       (exists e, t = TRejects e /\
                  promises (step o s) !! p = Some (Rejected e))))).
Proof.
  intros Hp. destruct o as [i|i|comp ps rnd|i|c r|i|]; cbn [step].
  - left. unfold mounted, bind, gets. by destruct (modalStack s).
  - left. unfold beforeUnmount, bind, gets.
    by destruct (decide (modalStack s = Some i)).
  - left. destruct (createModal_promises comp ps rnd s) as [x ->].
    rewrite lookup_app_l; [done|]. by eapply lookup_lt_Some.
  - left. by rewrite render_promises.
  - destruct (heap s !! cl_entry c) as [e|] eqn:He.
    + rewrite (onDismissModal_promises c r s e He).
      destruct (promise_resolve_change (resolve e) r (unlisted c s) p st Hp)
        as [H|(-> & -> & Hr & H)]; [by left|].
      right. split; [done|]. left. by exists c, r, e.
    + left. by rewrite onDismissModal_eq, He.
  - by left.
  - destruct (runJob_change s p st Hp) as [H|(-> & t & rest & Hj & H)];
      [by left|].
    right. split; [done|]. right. by exists t, rest.
Qed.

Lemma settled_stays tr : forall s p st,
  promises s !! p = Some st -> st <> Pending ->
  promises (run tr s) !! p = Some st.
Proof.
  induction tr as [|o tr IH]; intros s p st Hp Hst; [done|].
  cbn. apply IH; [|done].
  destruct (promise_step o s p st Hp) as [H|[H _]]; [done | congruence].
Qed.

(** ** Promises and the log *)



Lemma settlements_delivered p s this name arg :
  settlements p (delivered s this [Emit this name arg]) = [].
Proof. unfold delivered. by case_decide. Qed.
















(** ** A modal awaiting its dismissal *)








Lemma through_hooks_app tr1 : forall tr2 s,
  through_hooks (tr1 ++ tr2) s <->
  through_hooks tr1 s /\ through_hooks tr2 (run tr1 s).
Proof.
  induction tr1 as [|o tr1 IH]; intros tr2 s; cbn; [tauto|].
  rewrite IH. tauto.
Qed.



(* ====================================================================== *)
(** ** The claims, on [src/plugin.ts] *)

(** C1: with no instance registered, [createModal] warns, rejects the
    promise it returns and touches no stack, but it does not stop there:
    the entry is written to the registry all the same, which grows by
    one. *)
Theorem createModal_unmounted_registers_entry comp ps rnd s :
  modalStack s = None -> entries s !! gen_id rnd = None ->
  exists p s',
    createModal comp ps rnd s = Returns p s' /\
    promises s' !! p = Some (Rejected "No ModalStack avaible") /\
    log s' = log s ++
      [Warn "No ModalStack component mounted in current render tree";
       Settled p (Rejected "No ModalStack avaible")] /\
    stacks s' = stacks s /\
    entries s' !! gen_id rnd = Some (length (heap s)) /\
    entries s' <> entries s /\
    size (entries s') = S (size (entries s)).
Proof.
  intros Hm Hfresh. rewrite (createModal_unmounted _ _ _ _ Hm).
  eexists _, _. split; [reflexivity|].
  cbn [entries heap stacks promises log]. split_and!.
  - apply lookup_snoc.
  - done.
  - done.
  - apply lookup_insert_eq.
  - intros Heq. rewrite <- Heq, lookup_insert_eq in Hfresh. done.
  - by apply map_size_insert_None.
Qed.

(** C1 on the initial state. *)
Lemma createModal_unmounted_registers_entry_witness :
  modalStack initial = None /\ entries initial !! gen_id 5 = None /\
  exists p s',
    createModal "A" None 5 initial = Returns p s' /\
    promises s' !! p = Some (Rejected "No ModalStack avaible") /\
    log s' = log initial ++
      [Warn "No ModalStack component mounted in current render tree";
       Settled p (Rejected "No ModalStack avaible")] /\
    stacks s' = stacks initial /\
    entries s' !! gen_id 5 = Some (length (heap initial)) /\
    entries s' <> entries initial /\
    size (entries s') = S (size (entries initial)).
Proof.
  split; [reflexivity|]. split; [reflexivity|].
  apply (createModal_unmounted_registers_entry "A" None 5 initial);
    reflexivity.
Defined.




(** C3 (amended): from the empty state with instance [i] mounted, after
    every prefix of a trace of [createModal], [render] and dismissals on
    [i] in which no [createModal] draws an identifier that is in the
    registry, the stack of [i] is as long as the registry is large. *)
Theorem stack_length_is_registry_size i tr k :
  collision_free i tr (step (Mount i) initial) ->
  length (stack_of (run (take k tr) (step (Mount i) initial)) i)
  = size (entries (run (take k tr) (step (Mount i) initial))).
Proof.
  intros Hcf. apply synced_length, synced_run.
  - apply synced_mount.
  - by apply collision_free_take.
Qed.

(** C3 (amended) on a trace of two modals, one of them dismissed. *)
Lemma stack_length_is_registry_size_witness :
  collision_free 0
    [Create "A" None 5; Render 0; Create "B" None 255; Render 0;
     Dismiss (Closure 0 "00000005" 0) (VStr "x"); Render 0]
    (step (Mount 0) initial) /\
  length (stack_of (run (take 5
    [Create "A" None 5; Render 0; Create "B" None 255; Render 0;
     Dismiss (Closure 0 "00000005" 0) (VStr "x"); Render 0])
    (step (Mount 0) initial)) 0)
  = size (entries (run (take 5
    [Create "A" None 5; Render 0; Create "B" None 255; Render 0;
     Dismiss (Closure 0 "00000005" 0) (VStr "x"); Render 0])
    (step (Mount 0) initial))).
Proof.
  assert (collision_free 0
    [Create "A" None 5; Render 0; Create "B" None 255; Render 0;
     Dismiss (Closure 0 "00000005" 0) (VStr "x"); Render 0]
    (step (Mount 0) initial)) as Hcf.
  { cbn [collision_free cl_this]. split_and!; try done; vm_compute; reflexivity. }
  split; [exact Hcf|].
  exact (stack_length_is_registry_size 0 _ 5 Hcf).
Defined.

(** C3 does not hold as written: two [createModal] calls that draw the
    same identifier leave two identifiers on the stack and one entry in the
    registry. *)
Lemma colliding_ids_break_the_count :
  length (stack_of
    (run [Create "A" None 5; Create "B" None 5] (step (Mount 0) initial)) 0)
    = 2 /\
  size (entries
    (run [Create "A" None 5; Create "B" None 5] (step (Mount 0) initial)))
    = 1 /\
  length (stack_of
    (run [Create "A" None 5; Create "B" None 5] (step (Mount 0) initial)) 0)
  <> size (entries
    (run [Create "A" None 5; Create "B" None 5] (step (Mount 0) initial))).
Proof. split_and!; vm_compute; [reflexivity | reflexivity | discriminate]. Qed.

(** C4: creating a modal emits nothing; its first render emits
    ["modalDismissed"] and ["modals"]; its dismissal emits ["modalCreated"]
    and ["modals"].  The two names are the wrong way round.  The boolean
    is [hasModals] at the moment of the emission. *)
Theorem event_names_are_swapped :
  log (run [Mount 0; Create "A" None 5] initial) = [] /\
  log one_modal = [Emit 0 "modalDismissed" true; Emit 0 "modals" true] /\
  log (step (Dismiss (Closure 0 "00000005" 0) (VStr "x")) one_modal) =
    [Emit 0 "modalDismissed" true; Emit 0 "modals" true;
     Settled 0 (Fulfilled (VStr "x"));
     Emit 0 "modalCreated" false; Emit 0 "modals" false].
Proof. split_and!; vm_compute; reflexivity. Qed.

(** C5 (amended): with a mounted instance and nothing else, whenever the
    two draws give different identifiers: the stack is [[idA]] after
    creating A, [[idA; idB]] after creating B, [[idB]] after dismissing A
    with the string [x], which fulfils the promise of A with [x], and [[]]
    after dismissing B with the string [y], which fulfils the promise of B
    with [y]; whether or not the host also renders in between. *)
Theorem two_modal_scenario this compA psA rndA compB psB rndB (x y : string)
    early again :
  gen_id rndA <> gen_id rndB ->
  exists s,
    scenario this compA psA rndA compB psB rndB (VStr x) (VStr y) early again
      initial =
      Returns ([[gen_id rndA]; [gen_id rndA; gen_id rndB]; [gen_id rndB]; []],
               [Some (Fulfilled (VStr x)); Some (Fulfilled (VStr y))]) s.
Proof.
  intros Hne. assert (gen_id rndB <> gen_id rndA) as Hne' by congruence.
  unfold scenario.
  step_by mounted_first.
  step_by createModal_mounted.
  rewrite bind_gets. norm.
  destruct early.
  - rewrite bind_bind.
    erewrite bind_returns; cycle 1.
    { rewrite render_unfold. norm. render_fresh. reflexivity. }
    cbv beta. norm. rewrite !bind_ret.
    step_by createModal_mounted. rewrite bind_gets. norm.
    erewrite bind_returns; cycle 1.
    { rewrite render_unfold. norm. render_cached. render_fresh. reflexivity. }
    cbv beta. norm.
    close_scenario this (gen_id rndA) (gen_id rndB) (VStr x) (VStr y) again.
  - rewrite !bind_ret.
    step_by createModal_mounted. rewrite bind_gets. norm.
    erewrite bind_returns; cycle 1.
    { rewrite render_unfold. norm. render_fresh. render_fresh. reflexivity. }
    cbv beta. norm.
    close_scenario this (gen_id rndA) (gen_id rndB) (VStr x) (VStr y) again.
Qed.

(** C5 (amended) with the draws 5 and 255. *)
Lemma two_modal_scenario_witness :
  gen_id 5 <> gen_id 255 /\
  exists s,
    scenario 0 "A" None 5 "B" None 255 (VStr "x") (VStr "y") true true initial
    = Returns ([[gen_id 5]; [gen_id 5; gen_id 255]; [gen_id 255]; []],
               [Some (Fulfilled (VStr "x")); Some (Fulfilled (VStr "y"))]) s.
Proof.
  assert (gen_id 5 <> gen_id 255) as Hne by (vm_compute; discriminate).
  split; [exact Hne|].
  exact (two_modal_scenario 0 "A" None 5 "B" None 255 "x" "y" true true Hne).
Defined.

(** C5 does not hold as written: when the two draws give the same
    identifier, the entry of B replaces the entry of A, both nodes of the
    stack carry the hook of B, and the scenario ends with the promise of A
    still pending and the promise of B fulfilled with ["x"]. *)
Lemma equal_draws_leave_the_first_promise_pending :
  gen_id 5 = gen_id 5 /\
  exists s,
    scenario 0 "A" None 5 "B" None 5 (VStr "x") (VStr "y") false false initial
    = Returns ([[gen_id 5]; [gen_id 5; gen_id 5]; [gen_id 5]; []],
               [Some Pending; Some (Fulfilled (VStr "x"))]) s.
Proof. split; [reflexivity|]. eexists. vm_compute. reflexivity. Qed.

(** C6 (amended): right after a dismissal, returned or thrown, the
    identifier is absent from the registry; the stack has lost the first
    occurrence of the identifier and nothing else, so the identifier is
    still on the stack exactly when it was there twice or more. *)
Theorem dismissal_removes_first_occurrence c r s :
  let s' := final (onDismissModal c r s) in
  entries s' !! cl_id c = None /\
  stack_of s' (cl_this c) = remove_first (cl_id c) (stack_of s (cl_this c)) /\
  (cl_id c ∈ stack_of s' (cl_this c) <->
   2 <= occurrences (cl_id c) (stack_of s (cl_this c))).
Proof.
  intros s'. destruct (onDismissModal_frame c r s) as (He & _ & _ & _ & Hst).
  fold s' in He, Hst.
  assert (stack_of s' (cl_this c)
          = remove_first (cl_id c) (stack_of s (cl_this c))) as Hrm.
  { by rewrite Hst, stack_of_unlisted, decide_True. }
  split_and!.
  - rewrite He. apply lookup_delete_eq.
  - exact Hrm.
  - rewrite Hrm, elem_of_occurrences, occurrences_remove_first. lia.
Qed.

(** C6 does not hold as written: after two [createModal] calls that drew
    the same identifier, dismissing it through the rendered hook leaves it
    on the stack. *)
Lemma dismissed_id_still_on_stack :
  cached collision "00000005"
    (fresh_node 0 "00000005" 1 (Entry "B" None 1 None) 0) /\
  handler_of (fresh_node 0 "00000005" 1 (Entry "B" None 1 None) 0)
    = Some (Closure 0 "00000005" 1) /\
  stack_of collision 0 = ["00000005"; "00000005"] /\
  stack_of
    (final (onDismissModal (Closure 0 "00000005" 1) (VStr "x") collision)) 0
    = ["00000005"] /\
  ~ ("00000005" ∉
     stack_of
       (final (onDismissModal (Closure 0 "00000005" 1) (VStr "x") collision))
       0).
Proof.
  assert (stack_of
    (final (onDismissModal (Closure 0 "00000005" 1) (VStr "x") collision)) 0
    = ["00000005"]) as Hst by (vm_compute; reflexivity).
  split_and!.
  - eexists 1, _. split_and!; vm_compute; reflexivity.
  - vm_compute; reflexivity.
  - vm_compute; reflexivity.
  - exact Hst.
  - rewrite Hst. intros H. apply H. by left.
Qed.

(** C7: once [render] has returned, rendering again returns the very
    same nodes and changes nothing (no node is made, nothing emitted); and
    an entry it rendered keeps returning its node, state untouched, after
    any operations that neither dismiss the identifier nor register it
    anew. *)
Theorem cached_node_is_reused this s nodes s1 k id v tr that :
  render this s = Returns nodes s1 ->
  stack_of s this !! k = Some id -> nodes !! k = Some v ->
  Forall (keeps id) tr ->
  render this s1 = Returns nodes s1 /\
  render_entry that id (run tr s1) = Returns v (run tr s1).
Proof.
  intros Hr Hk Hv Htr. split; [by apply (render_twice this s)|].
  rewrite render_unfold in Hr.
  apply arrayMap_render_caches in Hr as [Hc _].
  apply render_entry_cached, cached_run; [done|].
  by eapply Forall2_lookup_lr.
Qed.

(** C7 on the one-modal run, followed by a second modal that comes and
    goes. *)
Lemma cached_node_is_reused_witness :
  render 0 (run [Mount 0; Create "A" None 5] initial)
    = Returns [one_modal_node] one_modal /\
  stack_of (run [Mount 0; Create "A" None 5] initial) 0 !! 0
    = Some "00000005" /\
  [one_modal_node] !! 0 = Some one_modal_node /\
  Forall (keeps "00000005")
    [Create "B" None 255; Render 0;
     Dismiss (Closure 0 "000000ff" 1) (VStr "y")] /\
  render 0 one_modal = Returns [one_modal_node] one_modal /\
  render_entry 0 "00000005"
    (run [Create "B" None 255; Render 0;
          Dismiss (Closure 0 "000000ff" 1) (VStr "y")] one_modal)
  = Returns one_modal_node
      (run [Create "B" None 255; Render 0;
            Dismiss (Closure 0 "000000ff" 1) (VStr "y")] one_modal).
Proof.
  assert (render 0 (run [Mount 0; Create "A" None 5] initial)
          = Returns [one_modal_node] one_modal) as Hr
    by (vm_compute; reflexivity).
  assert (stack_of (run [Mount 0; Create "A" None 5] initial) 0 !! 0
          = Some "00000005") as Hk by (vm_compute; reflexivity).
  assert ([one_modal_node] !! 0 = Some one_modal_node) as Hv by reflexivity.
  assert (Forall (keeps "00000005")
    [Create "B" None 255; Render 0;
     Dismiss (Closure 0 "000000ff" 1) (VStr "y")]) as Htr.
  { repeat constructor; intros H; vm_compute in H; discriminate. }
  split_and!; [exact Hr | exact Hk | exact Hv | exact Htr | ..];
    apply (cached_node_is_reused 0 _ _ _ 0 "00000005" one_modal_node _ 0
             Hr Hk Hv Htr).
Defined.

(** The registered instance stays registered until its own
    [beforeUnmount]. *)
Lemma registered_step o s j :
  modalStack s = Some j -> o <> Unmount j -> modalStack (step o s) = Some j.
Proof.
  intros Hm Ho. destruct o as [i|i|comp ps rnd|i|c r|i|]; cbn [step].
  - by rewrite (mounted_again i s j Hm).
  - rewrite beforeUnmount_other; [done|]. rewrite Hm. congruence.
  - by rewrite (createModal_mounted _ _ _ _ j Hm).
  - by destruct (render_frame i s) as (_ & -> & _).
  - by destruct (onDismissModal_frame c r s) as (_ & _ & -> & _).
  - done.
  - by destruct (runJob_frame s) as (_ & _ & -> & _).
Qed.

Lemma registered_run tr : forall s j,
  modalStack s = Some j -> Forall (fun o => o <> Unmount j) tr ->
  modalStack (run tr s) = Some j.
Proof.
  induction tr as [|o tr IH]; intros s j Hm Htr; [done|].
  inversion Htr; subst. cbn. apply IH; [|done]. by apply registered_step.
Qed.

(** C9 (amended): an instance [j] mounted when none is registered is the
    registered one until its own [beforeUnmount], whatever else happens;
    all that time [mounted] of any instance returns normally, and all it
    does is log the warning: [j] stays registered. *)
Theorem second_mount_warns i j tr s :
  modalStack s = None ->
  Forall (fun o => o <> Unmount j) tr ->
  modalStack (run (Mount j :: tr) s) = Some j /\
  mounted i (run (Mount j :: tr) s) =
    Returns tt
      (add_log (Warn "Vue modal stack component mounted multiple times")
         (run (Mount j :: tr) s)) /\
  modalStack
    (add_log (Warn "Vue modal stack component mounted multiple times")
       (run (Mount j :: tr) s))
    = Some j.
Proof.
  intros Hm Htr.
  assert (modalStack (run (Mount j :: tr) s) = Some j) as Hreg.
  { cbn [run foldl step]. apply registered_run; [|done].
    by rewrite (mounted_first j s Hm). }
  split_and!; [exact Hreg | by apply (mounted_again i _ j) | exact Hreg].
Qed.

(** C9 (amended) on instance 0, with a modal created and rendered and a
    third instance mounted and unmounted before instance 1 is mounted. *)
Lemma second_mount_warns_witness :
  let tr := [Create "A" None 5; Render 0; Mount 2; Unmount 2; Unmounted 2] in
  modalStack initial = None /\
  Forall (fun o => o <> Unmount 0) tr /\
  modalStack (run (Mount 0 :: tr) initial) = Some 0 /\
  mounted 1 (run (Mount 0 :: tr) initial) =
    Returns tt
      (add_log (Warn "Vue modal stack component mounted multiple times")
         (run (Mount 0 :: tr) initial)) /\
  modalStack
    (add_log (Warn "Vue modal stack component mounted multiple times")
       (run (Mount 0 :: tr) initial))
    = Some 0.
Proof.
  intros tr.
  assert (modalStack initial = None) as H1 by reflexivity.
  assert (Forall (fun o => o <> Unmount 0) tr) as H2
    by (repeat constructor; discriminate).
  split; [exact H1|]. split; [exact H2|].
  exact (second_mount_warns 1 0 tr initial H1 H2).
Defined.

(** C9 does not hold as written: an instance can be mounted without being
    registered.  After instance 1 is mounted beside instance 0 (with the
    warning) and instance 0 is unmounted, instance 1 is still mounted but
    none is registered; mounting instance 2 then logs nothing and
    registers instance 2. *)
Lemma mount_beside_an_unregistered_instance_is_silent :
  let s := run [Mount 0; Mount 1; Unmount 0] initial in
  log s = [Warn "Vue modal stack component mounted multiple times"] /\
  modalStack s = None /\
  mounted 2 s = Returns tt (set_modalStack (Some 2) s) /\
  log (step (Mount 2) s) = log s /\
  modalStack (step (Mount 2) s) = Some 2.
Proof. cbv zeta. split_and!; vm_compute; reflexivity. Qed.

(** C10: with [this] registered and [other] a second, unregistered
    instance: [beforeUnmount] of [other] changes nothing, and [createModal]
    still returns a pending promise and stacks the modal on [this];
    [beforeUnmount] of [this] clears the registration, after which
    [createModal] rejects its promise and touches no stack. *)
Theorem unmount_clears_only_registered this other comp ps rnd s :
  modalStack s = Some this -> other <> this ->
  (beforeUnmount other s = Returns tt s /\
   exists s',
     createModal comp ps rnd s = Returns (length (promises s)) s' /\
     promises s' !! length (promises s) = Some Pending /\
     stack_of s' this = stack_of s this ++ [gen_id rnd] /\
     entries s' !! gen_id rnd = Some (length (heap s)) /\
     modalStack s' = Some this /\ log s' = log s) /\
  exists s0,
    beforeUnmount this s = Returns tt s0 /\
    modalStack s0 = None /\
    exists s',
      createModal comp ps rnd s0 = Returns (length (promises s)) s' /\
      promises s' !! length (promises s)
        = Some (Rejected "No ModalStack avaible") /\
      stacks s' = stacks s /\
      log s' = log s ++
        [Warn "No ModalStack component mounted in current render tree";
         Settled (length (promises s)) (Rejected "No ModalStack avaible")].
Proof.
  intros Hm Hne. split.
  - split.
    + apply beforeUnmount_other. rewrite Hm. congruence.
    + rewrite (createModal_mounted _ _ _ _ this Hm). eexists.
      split; [reflexivity|]. unfold stack_of.
      cbn [entries heap modalStack stacks promises log]. split_and!.
      * apply lookup_snoc.
      * by rewrite lookup_insert_eq.
      * apply lookup_insert_eq.
      * done.
      * done.
  - rewrite (beforeUnmount_registered _ _ Hm). eexists. split; [reflexivity|].
    split; [reflexivity|].
    rewrite createModal_unmounted by reflexivity. eexists.
    split; [reflexivity|]. cbn [entries heap modalStack stacks promises log
      set_modalStack]. split_and!; try done. apply lookup_snoc.
Qed.

(** C10 on instance 0 with a duplicate mount of instance 1. *)
Lemma unmount_clears_only_registered_witness :
  modalStack (run [Mount 0; Mount 1] initial) = Some 0 /\ 1 <> 0 /\
  (beforeUnmount 1 (run [Mount 0; Mount 1] initial)
     = Returns tt (run [Mount 0; Mount 1] initial) /\
   exists s',
     createModal "A" None 5 (run [Mount 0; Mount 1] initial)
       = Returns (length (promises (run [Mount 0; Mount 1] initial))) s' /\
     promises s' !! length (promises (run [Mount 0; Mount 1] initial))
       = Some Pending /\
     stack_of s' 0 =
       stack_of (run [Mount 0; Mount 1] initial) 0 ++ [gen_id 5] /\
     entries s' !! gen_id 5
       = Some (length (heap (run [Mount 0; Mount 1] initial))) /\
     modalStack s' = Some 0 /\
     log s' = log (run [Mount 0; Mount 1] initial)) /\
  exists s0,
    beforeUnmount 0 (run [Mount 0; Mount 1] initial) = Returns tt s0 /\
    modalStack s0 = None /\
    exists s',
      createModal "A" None 5 s0
        = Returns (length (promises (run [Mount 0; Mount 1] initial))) s' /\
      promises s' !! length (promises (run [Mount 0; Mount 1] initial))
        = Some (Rejected "No ModalStack avaible") /\
      stacks s' = stacks (run [Mount 0; Mount 1] initial) /\
      log s' = log (run [Mount 0; Mount 1] initial) ++
        [Warn "No ModalStack component mounted in current render tree";
         Settled (length (promises (run [Mount 0; Mount 1] initial)))
                 (Rejected "No ModalStack avaible")].
Proof.
  split; [reflexivity|]. split; [lia|].
  apply (unmount_clears_only_registered 0 1 "A" None 5
           (run [Mount 0; Mount 1] initial)); [reflexivity | lia].
Defined.

(* ====================================================================== *)
(** ** The variant in [src/unnamed/part_000] *)

(** A second mount warns and returns; the flag stays set. *)
Lemma Variant_second_mount_warns s :
  Variant.is_mounted s = true ->
  Variant.mounted s =
    Returns tt
      (Variant.State (Variant.stack s) (Variant.entries s) (Variant.heap s)
         true (Variant.promises s) (Variant.vnodes s)
         (Variant.log s ++
            [Warn "Vue modal stack component mounted multiple times"])
         (Variant.alreadyResolved s) (Variant.jobs s)).
Proof.
  intros Hm. unfold Variant.mounted, bind, gets. rewrite Hm. reflexivity.
Qed.

(** [createModal] has no check: mounted or not, the promise stays pending
    and the modal is registered and stacked. *)
Lemma Variant_createModal_always_registers comp ps rnd s :
  Variant.createModal comp ps rnd s =
    Returns (length (Variant.promises s))
      (Variant.State (Variant.stack s ++ [gen_id rnd])
         (<[gen_id rnd := length (Variant.heap s)]> (Variant.entries s))
         (Variant.heap s ++
            [Variant.Entry comp ps (length (Variant.promises s)) None])
         (Variant.is_mounted s) (Variant.promises s ++ [Pending])
         (Variant.vnodes s) (Variant.log s)
         (<[length (Variant.promises s) := false]> (Variant.alreadyResolved s))
         (Variant.jobs s)).
Proof. reflexivity. Qed.

(** Nothing in the variant emits an event. *)
Lemma Variant_render_entry_log id s :
  Variant.log (final (Variant.render_entry id s)) = Variant.log s.
Proof.
  unfold Variant.render_entry, bind, gets, Variant.deref.
  destruct (Variant.entries s !! id) as [l|]; [|done].
  destruct (Variant.heap s !! l) as [e|]; [|done].
  by destruct (Variant.vnode e).
Qed.

Section VariantFacts.
Import Variant.

(** What settling and resolving a promise leave alone. *)
Lemma Variant_settle_frame p st s :
  let s' := final (settle p st s) in
  stack s' = stack s /\ entries s' = entries s /\ heap s' = heap s /\
  is_mounted s' = is_mounted s /\ vnodes s' = vnodes s /\
  (log s' = log s \/ log s' = log s ++ [Settled p st]).
Proof.
  unfold settle. destruct (promises s !! p) as [[]|]; cbn; auto 10.
Qed.

Lemma Variant_follow_frame p v s :
  let s' := final (follow p v s) in
  stack s' = stack s /\ entries s' = entries s /\ heap s' = heap s /\
  is_mounted s' = is_mounted s /\ vnodes s' = vnodes s /\
  (log s' = log s \/ log s' = log s ++ [Settled p (Fulfilled v)]).
Proof.
  destruct v; try apply Variant_settle_frame. cbn. auto 10.
Qed.

Lemma Variant_promise_resolve_frame p v s :
  let s' := final (promise_resolve p v s) in
  stack s' = stack s /\ entries s' = entries s /\ heap s' = heap s /\
  is_mounted s' = is_mounted s /\ vnodes s' = vnodes s /\
  (log s' = log s \/ log s' = log s ++ [Settled p (Fulfilled v)]).
Proof.
  unfold promise_resolve.
  destruct (alreadyResolved s !! p) as [[]|]; cbn [final]; auto 10.
  match goal with
  | |- context [follow p v ?s0] => apply (Variant_follow_frame p v s0)
  end.
Qed.

Lemma Variant_runJob_frame s :
  let s' := final (runJob s) in
  stack s' = stack s /\ entries s' = entries s /\ heap s' = heap s /\
  is_mounted s' = is_mounted s /\ vnodes s' = vnodes s.
Proof.
  unfold runJob. destruct (jobs s) as [|[p t] rest]; [done|].
  destruct t as [v|e|]; cbv zeta.
  - match goal with
    | |- context [follow p v ?s0] =>
        destruct (Variant_follow_frame p v s0) as (? & ? & ? & ? & ? & _)
    end.
    by split_and!.
  - match goal with
    | |- context [settle p ?st ?s0] =>
        destruct (Variant_settle_frame p st s0) as (? & ? & ? & ? & ? & _)
    end.
    by split_and!.
  - done.
Qed.

(** The state after the first three statements of [onDismissModal]. *)
Lemma Variant_onDismissModal_eq c r s :
  onDismissModal c r s =
    let s1 := State (remove_first (cl_id c) (stack s))
                    (delete (cl_id c) (entries s)) (heap s) (is_mounted s)
                    (promises s) (vnodes s) (log s) (alreadyResolved s)
                    (jobs s) in
    match heap s !! cl_entry c with
    | None => Throws "invalid reference" s1
    | Some e => promise_resolve (resolve e) r s1
    end.
Proof.
  unfold onDismissModal, bind, gets, modify, ret, deref.
  rewrite <- splice_indexOf.
  destruct (0 <=? indexOf (cl_id c) (stack s))%Z;
    cbn [stack entries heap is_mounted promises vnodes log alreadyResolved
         jobs];
    by destruct (heap s !! cl_entry c).
Qed.

(** Nothing in the variant emits an event: a dismissal logs at most the
    settlement of its promise. *)
Lemma Variant_onDismissModal_log c r s :
  log (final (onDismissModal c r s)) = log s \/
  exists p, log (final (onDismissModal c r s))
            = log s ++ [Settled p (Fulfilled r)].
Proof.
  rewrite Variant_onDismissModal_eq. cbv zeta.
  destruct (heap s !! cl_entry c) as [e|]; [|by left].
  match goal with
  | |- context [promise_resolve ?p r ?s0] =>
      destruct (Variant_promise_resolve_frame p r s0)
        as (_ & _ & _ & _ & _ & [H|H])
  end; cbv zeta in H; rewrite H; cbn [log]; eauto.
Qed.

(** As in [src/plugin.ts]: the registry loses the identifier, the stack its
    first occurrence. *)
Lemma Variant_dismissal_removes_first_occurrence c r s :
  let s' := final (onDismissModal c r s) in
  entries s' !! cl_id c = None /\
  stack s' = remove_first (cl_id c) (stack s).
Proof.
  rewrite Variant_onDismissModal_eq. cbv zeta.
  destruct (heap s !! cl_entry c) as [e|];
    cbn [final promises entries stack]; [|by rewrite lookup_delete_eq].
  match goal with
  | |- context [promise_resolve ?p r ?s0] =>
      destruct (Variant_promise_resolve_frame p r s0) as (Hs & He & _)
  end.
  cbv zeta in *. rewrite Hs, He. cbn [entries stack].
  by rewrite lookup_delete_eq.
Qed.

(** As in [src/plugin.ts]: the first dismissal, with a result that is not a
    thenable, fulfils the pending promise of the entry; a second one
    changes neither the promise nor the log. *)
Lemma Variant_dismissal_resolves_once c r r' s e :
  heap s !! cl_entry c = Some e ->
  promises s !! resolve e = Some Pending ->
  alreadyResolved s !! resolve e = Some false ->
  is_thenable r = false ->
  exists s1,
    onDismissModal c r s = Returns tt s1 /\
    promises s1 !! resolve e = Some (Fulfilled r) /\
    log s1 = log s ++ [Settled (resolve e) (Fulfilled r)] /\
    exists s2,
      onDismissModal c r' s1 = Returns tt s2 /\
      promises s2 = promises s1 /\ log s2 = log s1.
Proof.
  intros He Hp Ha Hr. rewrite Variant_onDismissModal_eq, He. cbv zeta.
  unfold promise_resolve at 1. cbn [alreadyResolved]. rewrite Ha.
  assert (forall s0, follow (resolve e) r s0
                     = settle (resolve e) (Fulfilled r) s0) as ->
    by (intros s0; by destruct r).
  unfold settle at 1. cbn [promises]. rewrite Hp.
  eexists. split; [reflexivity|]. cbn [promises log].
  assert (<[resolve e := Fulfilled r]> (promises s) !! resolve e
          = Some (Fulfilled r)) as Hf.
  { apply list_lookup_insert_eq. by eapply lookup_lt_Some. }
  split; [exact Hf|]. split; [done|].
  rewrite Variant_onDismissModal_eq. cbn [heap stack entries cl_id]. rewrite He.
  cbv zeta. unfold promise_resolve. cbn [alreadyResolved].
  rewrite lookup_insert_eq. eexists. split; [reflexivity|]. done.
Qed.

(** As in [src/plugin.ts]: an entry whose node is cached renders to that node
    and leaves the state alone. *)
Lemma Variant_render_entry_cached id s l e v :
  entries s !! id = Some l -> heap s !! l = Some e -> vnode e = Some v ->
  render_entry id s = Returns v s.
Proof.
  intros Hl He Hv. unfold render_entry, bind, gets, deref.
  rewrite Hl, He, Hv. reflexivity.
Qed.

Lemma Variant_render_entry_caches id s v s' :
  render_entry id s = Returns v s' ->
  stack s' = stack s /\
  (exists l e, entries s' !! id = Some l /\ heap s' !! l = Some e /\
               vnode e = Some v) /\
  forall id' l e w,
    entries s !! id' = Some l -> heap s !! l = Some e -> vnode e = Some w ->
    exists e', entries s' !! id' = Some l /\ heap s' !! l = Some e' /\
               vnode e' = Some w.
Proof.
  unfold render_entry, bind, gets, deref, h, modify, ret, throw.
  destruct (entries s !! id) as [l|] eqn:Hl; [|done].
  destruct (heap s !! l) as [e|] eqn:He; [|done].
  destruct (vnode e) as [w|] eqn:Hw.
  - intros [= <- <-]. split; [done|]. split; [by exists l, e|].
    intros id' l' e' w' ? ? ?. by exists e'.
  - cbn [stack entries heap is_mounted promises vnodes log].
    intros [= <- <-]. cbn [stack entries heap]. split; [done|]. split.
    + eexists l, _. split; [done|]. rewrite list_lookup_alter_eq, He.
      split; reflexivity.
    + intros id' l' e' w' Hl' He' Hw'. exists e'. split; [done|].
      rewrite list_lookup_alter_ne; [done|]. congruence.
Qed.

Lemma Variant_render_twice nodes s s' :
  render s = Returns nodes s' -> render s' = Returns nodes s'.
Proof.
  unfold render, bind, gets.
  assert (forall ids s0 vs s1,
    arrayMap render_entry ids s0 = Returns vs s1 ->
    stack s1 = stack s0 /\
    Forall2 (fun id v => exists l e, entries s1 !! id = Some l /\
               heap s1 !! l = Some e /\ vnode e = Some v) ids vs /\
    forall id' l e w,
      entries s0 !! id' = Some l -> heap s0 !! l = Some e ->
      vnode e = Some w ->
      exists e', entries s1 !! id' = Some l /\ heap s1 !! l = Some e' /\
                 vnode e' = Some w) as Hall.
  { induction ids as [|id ids IH]; intros s0 vs s1 Hr.
    - injection Hr as <- <-. split; [done|]. split; [constructor|].
      intros id' l e w ? ? ?. by exists e.
    - cbn [arrayMap] in Hr. unfold bind at 1 in Hr.
      destruct (render_entry id s0) as [v sa|] eqn:H1; [|discriminate].
      unfold bind at 1 in Hr.
      destruct (arrayMap render_entry ids sa) as [ws sb|] eqn:H2;
        [|discriminate].
      injection Hr as <- <-.
      apply Variant_render_entry_caches in H1 as (Hs1 & (l & e & Hl & He & Hv) & Hk1).
      apply IH in H2 as (Hs2 & Hc2 & Hk2). split; [congruence|]. split.
      + constructor; [|done].
        destruct (Hk2 _ _ _ _ Hl He Hv) as (e' & ? & ? & ?). by exists l, e'.
      + intros id' l' e' w Hl' He' Hw'.
        destruct (Hk1 _ _ _ _ Hl' He' Hw') as (e1 & ? & ? & ?). eauto. }
  intros Hr. apply Hall in Hr as (Hst & Hc & _). rewrite Hst.
  clear Hst Hall. induction Hc as [|id v ids vs (l & e & Hl & He & Hv) _ IH];
    [done|].
  cbn [arrayMap]. unfold bind.
  rewrite (Variant_render_entry_cached id s' l e v Hl He Hv), IH. reflexivity.
Qed.

End VariantFacts.


(** * Further properties of [src/plugin.ts] *)

(** ** When [render] returns and when it throws *)

Lemma arrayMap_app {A B} (f : A -> M state B) l1 l2 s :
  arrayMap f (l1 ++ l2) s =
    bind (arrayMap f l1)
      (fun ys => bind (arrayMap f l2) (fun zs => ret (ys ++ zs))) s.
Proof.
  revert s. induction l1 as [|x l1 IH]; intros s; cbn [arrayMap app].
  - unfold bind, ret. destruct (arrayMap f l2 s); reflexivity.
  - unfold bind, ret. destruct (f x s) as [y s1|e s1]; [|reflexivity].
    rewrite IH. unfold bind, ret.
    destruct (arrayMap f l1 s1) as [ys s2|]; [|reflexivity].
    destruct (arrayMap f l2 s2); reflexivity.
Qed.

Lemma registered_renders s s' id :
  renders s s' -> registered s id -> registered s' id.
Proof. intros (He & _). unfold registered. by rewrite He. Qed.

Lemma arrayMap_render_returns this ids : forall s,
  wf s -> Forall (registered s) ids ->
  exists nodes s', arrayMap (render_entry this) ids s = Returns nodes s'.
Proof.
  induction ids as [|id ids IH]; intros s Hwf Hreg; [by eexists _, _|].
  inversion Hreg as [|? ? [l Hl] Hrest]; subst.
  assert (exists v s1, render_entry this id s = Returns v s1)
    as (v & s1 & H1).
  { destruct (render_entry_cases this id s)
      as [[Hn _]|[(l' & Hl' & Hh & _)|[(v & _ & H)|(? & ? & _ & _ & _ & H)]]];
      [congruence | | by eauto | by eauto].
    apply (wf_bound s Hwf) in Hl'. apply lookup_ge_None in Hh. lia. }
  pose proof (render_entry_frame this id s) as Hf.
  pose proof (wf_render_entry this id s Hwf) as Hwf1.
  rewrite H1 in Hf, Hwf1. cbn [final] in Hf, Hwf1.
  destruct (IH s1 Hwf1) as (nodes & s2 & H2).
  { eapply Forall_impl; [exact Hrest|]. intros x. by apply registered_renders. }
  exists (v :: nodes), s2. cbn [arrayMap].
  by rewrite (bind_returns _ _ _ _ _ H1), (bind_returns _ _ _ _ _ H2).
Qed.

(** X3: in a well-formed state [render()] returns its list of nodes exactly
    when every identifier on the instance's stack is in the registry. *)
Theorem render_returns_iff_registered this s :
  wf s ->
  (exists nodes s', render this s = Returns nodes s') <->
  Forall (registered s) (stack_of s this).
Proof.
  intros Hwf. rewrite render_unfold. split.
  - intros (nodes & s' & Hr).
    pose proof (arrayMap_render_frame this (stack_of s this) s) as (He & _).
    rewrite Hr in He. cbn [final] in He.
    apply arrayMap_render_caches in Hr as [Hc _].
    apply Forall_forall. intros id Hin.
    apply list_elem_of_lookup in Hin as [k Hk].
    destruct (Forall2_lookup_l _ _ _ _ _ Hc Hk) as (v & _ & l & e & Hl & _).
    unfold registered. rewrite <- He, Hl. by eexists.
  - by apply arrayMap_render_returns.
Qed.

Lemma render_returns_iff_registered_witness :
  wf one_modal /\
  ((exists nodes s', render 0 one_modal = Returns nodes s') <->
   Forall (registered one_modal) (stack_of one_modal 0)).
Proof.
  assert (wf one_modal) as Hwf by (apply wf_run, wf_initial).
  split; [exact Hwf|]. exact (render_returns_iff_registered 0 one_modal Hwf).
Defined.

(** X4: when the stack holds an identifier that is not in the registry, after
    identifiers that are, [render()] throws the [TypeError] of reading
    [vnode] of [undefined]; registry, stacks and promises are as before, and
    the entries in front of the missing one are rendered and cached. *)
Theorem render_throws_on_unregistered this s pre id post :
  wf s ->
  stack_of s this = pre ++ id :: post ->
  Forall (registered s) pre ->
  entries s !! id = None ->
  exists s',
    render this s = Throws "TypeError: Cannot read properties of undefined" s' /\
    renders s s' /\
    Forall (fun id' => exists v, cached s' id' v) pre.
Proof.
  intros Hwf Hst Hpre Hid. rewrite render_unfold, Hst, arrayMap_app.
  destruct (arrayMap_render_returns this pre s Hwf Hpre) as (nodes & s1 & H1).
  rewrite (bind_returns _ _ _ _ _ H1).
  pose proof (arrayMap_render_frame this pre s) as Hf.
  rewrite H1 in Hf. cbn [final] in Hf.
  assert (entries s1 !! id = None) as Hid1.
  { destruct Hf as (-> & _). exact Hid. }
  exists s1. split_and!.
  - cbn [arrayMap]. unfold bind at 1. unfold bind at 1.
    by rewrite (render_entry_missing this id s1 Hid1).
  - exact Hf.
  - apply arrayMap_render_caches in H1 as [Hc _].
    apply Forall_forall. intros id' Hin.
    apply list_elem_of_lookup in Hin as [k Hk].
    destruct (Forall2_lookup_l _ _ _ _ _ Hc Hk) as (v & _ & Hv). by exists v.
Qed.

Lemma render_throws_on_unregistered_witness :
  wf (run [Mount 0; Create "A" None 255; Create "B" None 5;
           Create "C" None 5; Render 0;
           Dismiss (Closure 0 "00000005" 2) (VStr "x")] initial) /\
  stack_of (run [Mount 0; Create "A" None 255; Create "B" None 5;
                 Create "C" None 5; Render 0;
                 Dismiss (Closure 0 "00000005" 2) (VStr "x")] initial) 0
    = ["000000ff"] ++ "00000005" :: [] /\
  Forall (registered
            (run [Mount 0; Create "A" None 255; Create "B" None 5;
                  Create "C" None 5; Render 0;
                  Dismiss (Closure 0 "00000005" 2) (VStr "x")] initial))
         ["000000ff"] /\
  entries (run [Mount 0; Create "A" None 255; Create "B" None 5;
                Create "C" None 5; Render 0;
                Dismiss (Closure 0 "00000005" 2) (VStr "x")] initial)
    !! "00000005" = None /\
  exists s',
    render 0 (run [Mount 0; Create "A" None 255; Create "B" None 5;
                   Create "C" None 5; Render 0;
                   Dismiss (Closure 0 "00000005" 2) (VStr "x")] initial)
      = Throws "TypeError: Cannot read properties of undefined" s' /\
    renders (run [Mount 0; Create "A" None 255; Create "B" None 5;
                  Create "C" None 5; Render 0;
                  Dismiss (Closure 0 "00000005" 2) (VStr "x")] initial) s' /\
    Forall (fun id' => exists v, cached s' id' v) ["000000ff"].
Proof.
  set (s := run [Mount 0; Create "A" None 255; Create "B" None 5;
                 Create "C" None 5; Render 0;
                 Dismiss (Closure 0 "00000005" 2) (VStr "x")] initial).
  assert (wf s) as Hwf by (apply wf_run, wf_initial).
  assert (stack_of s 0 = ["000000ff"] ++ "00000005" :: []) as Hst
    by (vm_compute; reflexivity).
  assert (Forall (registered s) ["000000ff"]) as Hpre.
  { repeat constructor. exists 0. vm_compute. reflexivity. }
  assert (entries s !! "00000005" = None) as Hid by (vm_compute; reflexivity).
  split_and!; [exact Hwf | exact Hst | exact Hpre | exact Hid |].
  exact (render_throws_on_unregistered 0 s ["000000ff"] "00000005" []
           Hwf Hst Hpre Hid).
Defined.

(** ** Nodes *)

Lemma modal_div_fresh_node this id l e n :
  modal_div id e (Closure this id l) (fresh_node this id l e n).
Proof.
  unfold modal_div, fresh_node. cbn [vtype vprops vchildren].
  split_and!; [done | done |]. eexists. split; [reflexivity|].
  cbn [vtype vprops vchildren]. split_and!; try done.
  - apply lookup_insert_eq.
  - intros k Hk. rewrite lookup_insert_ne by done.
    unfold spread. apply lookup_fmap.
Qed.

Lemma nodes_ok_initial : nodes_ok initial.
Proof. split; intros *; cbn; by rewrite ?lookup_nil. Qed.

Lemma nodes_ok_ext s s' :
  heap s' = heap s -> vnodes s' = vnodes s -> nodes_ok s -> nodes_ok s'.
Proof. intros Hh Hv [H1 H2]. split; rewrite ?Hh, ?Hv; eauto. Qed.

Lemma nodes_ok_createModal comp ps rnd s :
  nodes_ok s -> nodes_ok (final (createModal comp ps rnd s)).
Proof.
  intros [H1 H2].
  destruct (createModal_registry comp ps rnd s) as [_ Hh].
  assert (vnodes (final (createModal comp ps rnd s)) = vnodes s) as Hv.
  { destruct (modalStack s) as [i|] eqn:Hm.
    - by rewrite (createModal_mounted _ _ _ _ i Hm).
    - by rewrite (createModal_unmounted _ _ _ _ Hm). }
  assert (forall l e v,
    (heap s ++ [Entry comp ps (length (promises s)) None]) !! l = Some e ->
    vnode e = Some v -> heap s !! l = Some e) as Hold.
  { intros l e v Hl Hvn. apply lookup_app_Some in Hl as [Hl|[_ Hl]]; [done|].
    apply list_lookup_singleton_Some in Hl as [_ <-]. done. }
  split; rewrite ?Hh, ?Hv.
  - intros l e v Hl Hvn. eauto.
  - intros l1 l2 e1 e2 v1 v2 Hl1 Hl2 Hv1 Hv2. eauto.
Qed.

Lemma nodes_ok_render_entry this id s :
  nodes_ok s -> nodes_ok (final (render_entry this id s)).
Proof.
  intros Hok.
  destruct (render_entry_cases this id s)
    as [[_ ->]|[(l & _ & _ & ->)|[(v & _ & ->)|(l & e & Hl & He & Hv & ->)]]];
    try done.
  destruct Hok as [H1 H2]. cbn [final].
  set (v := fresh_node this id l e (vnodes s)).
  assert (forall l' e' v',
    alter (with_vnode v) l (heap s) !! l' = Some e' -> vnode e' = Some v' ->
    (l' = l /\ v' = v /\ e' = with_vnode v e) \/
    (l' <> l /\ heap s !! l' = Some e')) as Hcase.
  { intros l' e' v' Hl' Hv'. destruct (decide (l' = l)) as [->|Hne].
    - left. rewrite list_lookup_alter_eq, He in Hl'. injection Hl' as <-.
      cbn in Hv'. by injection Hv' as <-.
    - right. by rewrite list_lookup_alter_ne in Hl'. }
  split; cbn [heap vnodes].
  - intros l' e' v' Hl' Hv'.
    destruct (Hcase _ _ _ Hl' Hv') as [(-> & -> & ->)|[_ Hold]].
    + exists this, id, (vnodes s). split; [reflexivity | lia].
    + destruct (H1 _ _ _ Hold Hv') as (i & id' & n & -> & Hn).
      exists i, id', n. split; [done | lia].
  - intros l1 l2 e1 e2 v1 v2 Hl1 Hl2 Hv1 Hv2 Href.
    destruct (Hcase _ _ _ Hl1 Hv1) as [(-> & -> & ->)|[Hn1 Ho1]];
      destruct (Hcase _ _ _ Hl2 Hv2) as [(-> & -> & ->)|[Hn2 Ho2]];
      try done.
    + destruct (H1 _ _ _ Ho2 Hv2) as (? & ? & n & -> & Hn).
      cbn in Href. lia.
    + destruct (H1 _ _ _ Ho1 Hv1) as (? & ? & n & -> & Hn).
      cbn in Href. lia.
    + eauto.
Qed.

Lemma nodes_ok_step o s : nodes_ok s -> nodes_ok (step o s).
Proof.
  intros Hok. destruct o as [i|i|comp ps rnd|i|c r|i|]; cbn [step];
    [..|by apply (nodes_ok_ext s)
       |destruct (runJob_frame s) as (_ & Hh & _ & _ & Hv & _);
        by apply (nodes_ok_ext s)].
  - unfold mounted, bind, gets.
    destruct (modalStack s); apply (nodes_ok_ext s); reflexivity || assumption.
  - unfold beforeUnmount, bind, gets.
    destruct (decide (modalStack s = Some i));
      apply (nodes_ok_ext s); reflexivity || assumption.
  - by apply nodes_ok_createModal.
  - rewrite render_unfold. generalize (stack_of s i). intros ids.
    revert s Hok. induction ids as [|id ids IH]; intros s Hok; [done|].
    cbn [arrayMap]. rewrite final_bind.
    pose proof (nodes_ok_render_entry i id s Hok) as H1.
    destruct (render_entry i id s) as [v s1|err s1]; [|done].
    rewrite final_bind. specialize (IH s1 H1).
    by destruct (arrayMap (render_entry i) ids s1).
  - destruct (onDismissModal_frame c r s) as (_ & Hh & _ & Hv & _).
    by apply (nodes_ok_ext s).
Qed.

Lemma nodes_ok_run tr : forall s, nodes_ok s -> nodes_ok (run tr s).
Proof.
  induction tr as [|o tr IH]; intros s Hok; [done|].
  cbn. apply IH. by apply nodes_ok_step.
Qed.

(** X5: in every state reached from the initial one, the nodes [render()]
    returns are, identifier by identifier of the stack, a [div] whose only
    attribute is [data-modal-<id>], around one node of the entry's component
    that carries the entry's props and, as [onDismissModal], the hook of
    that identifier and entry. *)
Theorem rendered_nodes_wrap_the_component tr this nodes s' :
  render this (run tr initial) = Returns nodes s' ->
  Forall2
    (fun id v => exists l e i,
       entries s' !! id = Some l /\ heap s' !! l = Some e /\
       modal_div id e (Closure i id l) v)
    (stack_of (run tr initial) this) nodes.
Proof.
  intros Hr.
  assert (wf s' /\ nodes_ok s') as [Hwf Hok].
  { change s' with (final (Returns (S := state) nodes s')). rewrite <- Hr.
    split.
    - apply (wf_step (Render this)), wf_run, wf_initial.
    - apply (nodes_ok_step (Render this)), nodes_ok_run, nodes_ok_initial. }
  rewrite render_unfold in Hr. apply arrayMap_render_caches in Hr as [Hc _].
  eapply Forall2_impl; [exact Hc|].
  intros id v (l & e & Hl & He & Hv). cbv beta.
  destruct (nodes_built s' Hok l e v He Hv) as (i & id' & n & -> & _).
  destruct (wf_hook s' Hwf id l e _ Hl He Hv) as [j Hj].
  rewrite handler_of_fresh_node in Hj. injection Hj as <- <-.
  exists l, e, i. split_and!; [done | done |]. apply modal_div_fresh_node.
Qed.

Lemma rendered_nodes_wrap_the_component_witness :
  render 0 (run [Mount 0; Create "A" None 5] initial)
    = Returns [one_modal_node] one_modal /\
  Forall2
    (fun id v => exists l e i,
       entries one_modal !! id = Some l /\ heap one_modal !! l = Some e /\
       modal_div id e (Closure i id l) v)
    (stack_of (run [Mount 0; Create "A" None 5] initial) 0) [one_modal_node].
Proof.
  assert (render 0 (run [Mount 0; Create "A" None 5] initial)
          = Returns [one_modal_node] one_modal) as Hr
    by (vm_compute; reflexivity).
  split; [exact Hr|].
  exact (rendered_nodes_wrap_the_component [Mount 0; Create "A" None 5] 0
           [one_modal_node] one_modal Hr).
Defined.

(** X6: in every state reached from the initial one, two different entry
    objects never cache nodes of the same identity, and every cached node
    has been handed out before: its identity is below the node counter. *)
Theorem entries_never_share_a_node tr l1 l2 e1 e2 v1 v2 :
  heap (run tr initial) !! l1 = Some e1 ->
  heap (run tr initial) !! l2 = Some e2 ->
  vnode e1 = Some v1 -> vnode e2 = Some v2 ->
  l1 <> l2 ->
  vref v1 <> vref v2 /\ vref v1 < vnodes (run tr initial) /\
  vref v2 < vnodes (run tr initial).
Proof.
  intros H1 H2 Hv1 Hv2 Hne.
  pose proof (nodes_ok_run tr initial nodes_ok_initial) as Hok.
  split_and!.
  - intros Href. apply Hne. by eapply (nodes_apart _ Hok).
  - destruct (nodes_built _ Hok _ _ _ H1 Hv1) as (? & ? & n & -> & Hn).
    cbn. lia.
  - destruct (nodes_built _ Hok _ _ _ H2 Hv2) as (? & ? & n & -> & Hn).
    cbn. lia.
Qed.

Lemma entries_never_share_a_node_witness :
  heap (run [Mount 0; Create "A" None 5; Create "B" None 255; Render 0]
          initial) !! 0
    = Some (with_vnode (fresh_node 0 "00000005" 0 (Entry "A" None 0 None) 0)
              (Entry "A" None 0 None)) /\
  heap (run [Mount 0; Create "A" None 5; Create "B" None 255; Render 0]
          initial) !! 1
    = Some (with_vnode (fresh_node 0 "000000ff" 1 (Entry "B" None 1 None) 2)
              (Entry "B" None 1 None)) /\
  vnode (with_vnode (fresh_node 0 "00000005" 0 (Entry "A" None 0 None) 0)
           (Entry "A" None 0 None))
    = Some (fresh_node 0 "00000005" 0 (Entry "A" None 0 None) 0) /\
  vnode (with_vnode (fresh_node 0 "000000ff" 1 (Entry "B" None 1 None) 2)
           (Entry "B" None 1 None))
    = Some (fresh_node 0 "000000ff" 1 (Entry "B" None 1 None) 2) /\
  0 <> 1 /\
  vref (fresh_node 0 "00000005" 0 (Entry "A" None 0 None) 0)
    <> vref (fresh_node 0 "000000ff" 1 (Entry "B" None 1 None) 2) /\
  vref (fresh_node 0 "00000005" 0 (Entry "A" None 0 None) 0)
    < vnodes (run [Mount 0; Create "A" None 5; Create "B" None 255; Render 0]
                initial) /\
  vref (fresh_node 0 "000000ff" 1 (Entry "B" None 1 None) 2)
    < vnodes (run [Mount 0; Create "A" None 5; Create "B" None 255; Render 0]
                initial).
Proof.
  set (tr := [Mount 0; Create "A" None 5; Create "B" None 255; Render 0]).
  assert (heap (run tr initial) !! 0
    = Some (with_vnode (fresh_node 0 "00000005" 0 (Entry "A" None 0 None) 0)
              (Entry "A" None 0 None))) as H1 by (vm_compute; reflexivity).
  assert (heap (run tr initial) !! 1
    = Some (with_vnode (fresh_node 0 "000000ff" 1 (Entry "B" None 1 None) 2)
              (Entry "B" None 1 None))) as H2 by (vm_compute; reflexivity).
  assert (0 <> 1) as Hne by lia.
  split_and!; [exact H1 | exact H2 | reflexivity | reflexivity | exact Hne | ..];
    apply (entries_never_share_a_node tr 0 1 _ _ _ _ H1 H2 eq_refl eq_refl Hne).
Defined.

(** ** Promises *)

(** X7: a promise that is fulfilled or rejected keeps its state through every
    sequence of mounts, unmounts, [createModal], [render] and dismissals,
    and of steps of the runtime. *)
Theorem settled_promise_never_changes tr s p st :
  promises s !! p = Some st -> st <> Pending ->
  promises (run tr s) !! p = Some st.
Proof. apply settled_stays. Qed.

Lemma settled_promise_never_changes_witness :
  promises (step (Create "A" None 5) initial) !! 0
    = Some (Rejected "No ModalStack avaible") /\
  Rejected "No ModalStack avaible" <> Pending /\
  promises
    (run [Mount 0; Create "B" None 5; Render 0;
          Dismiss (Closure 0 "00000005" 0) (VStr "x")]
       (step (Create "A" None 5) initial)) !! 0
    = Some (Rejected "No ModalStack avaible").
Proof.
  assert (promises (step (Create "A" None 5) initial) !! 0
          = Some (Rejected "No ModalStack avaible")) as H1
    by (vm_compute; reflexivity).
  assert (Rejected "No ModalStack avaible" <> Pending) as H2 by discriminate.
  split_and!; [exact H1 | exact H2 |].
  exact (settled_promise_never_changes _ _ 0 _ H1 H2).
Defined.

(** X8: if one operation settles a promise that was pending, then the
    operation is a dismissal, with a result that is not a thenable, through
    a hook whose entry holds the [resolve] of that promise, and the promise
    is fulfilled with that result; or it is the job of a thenable the
    promise was resolved with, and the promise is fulfilled with what the
    thenable hands over, or rejected with its reason.  No other operation
    settles a promise that exists: [createModal] rejects only the promise
    it makes. *)
Theorem only_its_hook_or_its_thenable_settles_a_promise o s p st :
  promises s !! p = Some Pending ->
  promises (step o s) !! p = Some st -> st <> Pending ->
  (exists c r e, o = Dismiss c r /\ heap s !! cl_entry c = Some e /\
                 resolve e = p /\ is_thenable r = false /\
                 st = Fulfilled r) \/
  (exists t rest, o = Job /\ jobs s = (p, t) :: rest /\
     ((exists v, t = TResolves v /\ is_thenable v = false /\
                 st = Fulfilled v) \/
      (exists e, t = TRejects e /\ st = Rejected e))).
Proof.
  intros Hp Hst Hne.
  destruct (promise_step o s p Pending Hp)
    as [H|(_ & [(c & r & e & -> & He & Hr & Hth & H)
               |(t & rest & -> & Hj & [(v & -> & Hth & H)|(e & -> & H)])])];
    rewrite H in Hst; injection Hst as <-.
  - done.
  - left. by exists c, r, e.
  - right. exists (TResolves v), rest. split_and!; try done. left. by exists v.
  - right. exists (TRejects e), rest. split_and!; try done. right. by exists e.
Qed.

Lemma only_its_hook_or_its_thenable_settles_a_promise_witness :
  let o := Dismiss (Closure 0 "00000005" 0) (VStr "x") in
  promises one_modal !! 0 = Some Pending /\
  promises (step o one_modal) !! 0 = Some (Fulfilled (VStr "x")) /\
  Fulfilled (VStr "x") <> Pending /\
  ((exists c r e, o = Dismiss c r /\ heap one_modal !! cl_entry c = Some e /\
                  resolve e = 0 /\ is_thenable r = false /\
                  Fulfilled (VStr "x") = Fulfilled r) \/
   (exists t rest, o = Job /\ jobs one_modal = (0, t) :: rest /\
      ((exists v, t = TResolves v /\ is_thenable v = false /\
                  Fulfilled (VStr "x") = Fulfilled v) \/
       (exists e, t = TRejects e /\ Fulfilled (VStr "x") = Rejected e)))).
Proof.
  intros o.
  assert (promises one_modal !! 0 = Some Pending) as H1
    by (vm_compute; reflexivity).
  assert (promises (step o one_modal) !! 0 = Some (Fulfilled (VStr "x")))
    as H2 by (vm_compute; reflexivity).
  assert (Fulfilled (VStr "x") <> Pending) as H3 by discriminate.
  split_and!; [exact H1 | exact H2 | exact H3 |].
  exact (only_its_hook_or_its_thenable_settles_a_promise o one_modal 0 _
           H1 H2 H3).
Defined.

(** ** Identifier collisions *)

Lemma occurrences_snoc x l : occurrences x (l ++ [x]) = S (occurrences x l).
Proof.
  induction l as [|y l IH]; cbn.
  - by rewrite decide_True.
  - case_decide; by rewrite IH.
Qed.

(** X9: [createModal] on a mounted instance that draws an identifier already
    in the registry returns, and registers a new entry object under the
    identifier: the earlier entry object is still in memory, unchanged, but
    no identifier leads to it any more; the identifier is on the stack once
    more and the registry has not grown. *)
Theorem collision_orphans_the_earlier_entry comp ps rnd s i l :
  wf s -> modalStack s = Some i -> entries s !! gen_id rnd = Some l ->
  exists p s',
    createModal comp ps rnd s = Returns p s' /\
    entries s' !! gen_id rnd = Some (length (heap s)) /\
    length (heap s) <> l /\
    heap s' !! l = heap s !! l /\
    (forall id, entries s' !! id <> Some l) /\
    occurrences (gen_id rnd) (stack_of s' i)
      = S (occurrences (gen_id rnd) (stack_of s i)) /\
    size (entries s') = size (entries s).
Proof.
  intros Hwf Hm Hl. rewrite (createModal_mounted _ _ _ _ i Hm).
  eexists _, _. split; [reflexivity|].
  pose proof (wf_bound s Hwf _ _ Hl) as Hb.
  unfold stack_of. cbn [entries heap stacks]. split_and!.
  - apply lookup_insert_eq.
  - lia.
  - by rewrite lookup_app_l.
  - intros id. rewrite lookup_insert. case_decide as Hid.
    + intros [= ?]. lia.
    + intros Hid'. apply Hid. by eapply (wf_inj s Hwf).
  - rewrite lookup_insert_eq. apply occurrences_snoc.
  - rewrite map_size_insert_Some; [done|]. by eexists.
Qed.

Lemma collision_orphans_the_earlier_entry_witness :
  wf (run [Mount 0; Create "A" None 5] initial) /\
  modalStack (run [Mount 0; Create "A" None 5] initial) = Some 0 /\
  entries (run [Mount 0; Create "A" None 5] initial) !! gen_id 5 = Some 0 /\
  exists p s',
    createModal "B" None 5 (run [Mount 0; Create "A" None 5] initial)
      = Returns p s' /\
    entries s' !! gen_id 5
      = Some (length (heap (run [Mount 0; Create "A" None 5] initial))) /\
    length (heap (run [Mount 0; Create "A" None 5] initial)) <> 0 /\
    heap s' !! 0 = heap (run [Mount 0; Create "A" None 5] initial) !! 0 /\
    (forall id, entries s' !! id <> Some 0) /\
    occurrences (gen_id 5) (stack_of s' 0)
      = S (occurrences (gen_id 5)
             (stack_of (run [Mount 0; Create "A" None 5] initial) 0)) /\
    size (entries s')
      = size (entries (run [Mount 0; Create "A" None 5] initial)).
Proof.
  assert (wf (run [Mount 0; Create "A" None 5] initial)) as Hwf
    by (apply wf_run, wf_initial).
  assert (modalStack (run [Mount 0; Create "A" None 5] initial) = Some 0)
    as Hm by (vm_compute; reflexivity).
  assert (entries (run [Mount 0; Create "A" None 5] initial) !! gen_id 5
          = Some 0) as Hl by (vm_compute; reflexivity).
  split_and!; [exact Hwf | exact Hm | exact Hl |].
  exact (collision_orphans_the_earlier_entry "B" None 5 _ 0 0 Hwf Hm Hl).
Defined.

(** ** Dismissals at the edges *)

(** X10: a hook called when its identifier is not on its instance's stack
    ([indexOf] gives -1) splices nothing: the stacks are unchanged and the
    identifier is deleted from the registry; if the entry's promise has not
    been resolved and the result is not a thenable, the promise is
    fulfilled with the result; the two events, carrying the unchanged
    [hasModals], are delivered unless the instance has been unmounted. *)
Theorem dismissal_off_the_stack c r s e :
  cl_id c ∉ stack_of s (cl_this c) ->
  heap s !! cl_entry c = Some e ->
  promises s !! resolve e = Some Pending ->
  alreadyResolved s !! resolve e = Some false ->
  is_thenable r = false ->
  exists s',
    onDismissModal c r s = Returns tt s' /\
    stacks s' = stacks s /\
    entries s' = delete (cl_id c) (entries s) /\
    promises s' !! resolve e = Some (Fulfilled r) /\
    log s' = log s ++
      Settled (resolve e) (Fulfilled r) ::
      (if decide (cl_this c ∈ isUnmounted s) then []
       else [Emit (cl_this c) "modalCreated"
                  (0 <? length (stack_of s (cl_this c)))%nat;
             Emit (cl_this c) "modals"
                  (0 <? length (stack_of s (cl_this c)))%nat]).
Proof.
  intros Hout He Hp Ha Hr. rewrite (onDismissModal_spec c r s e He).
  cbv zeta.
  assert (unlisted c s =
          State (delete (cl_id c) (entries s)) (heap s) (modalStack s)
                (stacks s) (promises s) (vnodes s) (log s)
                (alreadyResolved s) (jobs s) (isUnmounted s)) as Hun.
  { unfold unlisted. apply indexOf_absent in Hout. by rewrite Hout. }
  rewrite Hun, promise_resolve_first by done.
  eexists. split; [reflexivity|].
  unfold add_log, set_promises, set_alreadyResolved, stack_of, delivered.
  cbn [final entries heap modalStack stacks promises vnodes log].
  split_and!; try done.
  - apply list_lookup_insert_eq. by eapply lookup_lt_Some.
  - by rewrite <- !app_assoc.
Qed.

Lemma dismissal_off_the_stack_witness :
  let s := run [Mount 0; Create "A" None 5; Render 0; Create "B" None 5;
                Render 0; Dismiss (Closure 0 "00000005" 1) (VStr "x");
                Dismiss (Closure 0 "00000005" 1) (VStr "y")] initial in
  ("00000005" ∉ stack_of s 0) /\
  heap s !! 0 = Some one_modal_entry /\
  promises s !! resolve one_modal_entry = Some Pending /\
  alreadyResolved s !! resolve one_modal_entry = Some false /\
  is_thenable (VStr "z") = false /\
  exists s',
    onDismissModal (Closure 0 "00000005" 0) (VStr "z") s = Returns tt s' /\
    stacks s' = stacks s /\
    entries s' = delete "00000005" (entries s) /\
    promises s' !! resolve one_modal_entry = Some (Fulfilled (VStr "z")) /\
    log s' = log s ++
      Settled (resolve one_modal_entry) (Fulfilled (VStr "z")) ::
      (if decide (0 ∈ isUnmounted s) then []
       else [Emit 0 "modalCreated" (0 <? length (stack_of s 0))%nat;
             Emit 0 "modals" (0 <? length (stack_of s 0))%nat]).
Proof.
  intros s.
  assert ("00000005" ∉ stack_of s 0) as H1.
  { replace (stack_of s 0) with (@nil string) by (vm_compute; reflexivity).
    apply not_elem_of_nil. }
  assert (heap s !! 0 = Some one_modal_entry) as H2
    by (vm_compute; reflexivity).
  assert (promises s !! resolve one_modal_entry = Some Pending) as H3
    by (vm_compute; reflexivity).
  assert (alreadyResolved s !! resolve one_modal_entry = Some false) as H4
    by (vm_compute; reflexivity).
  assert (is_thenable (VStr "z") = false) as H5 by reflexivity.
  split_and!; [exact H1 | exact H2 | exact H3 | exact H4 | exact H5 |].
  exact (dismissal_off_the_stack (Closure 0 "00000005" 0) (VStr "z")
           s one_modal_entry H1 H2 H3 H4 H5).
Defined.

(** X11: a hook called when its entry's promise is fulfilled already
    leaves the promises as they are, but still removes the first occurrence
    of its identifier from the stack, and the two events are delivered
    again, with [hasModals] of the stack that results, unless the instance
    has been unmounted, in which case nothing is delivered. *)
Theorem repeated_dismissal_emits_unless_unmounted c r r0 s e :
  heap s !! cl_entry c = Some e ->
  promises s !! resolve e = Some (Fulfilled r0) ->
  exists s',
    onDismissModal c r s = Returns tt s' /\
    promises s' = promises s /\
    stack_of s' (cl_this c) = remove_first (cl_id c) (stack_of s (cl_this c)) /\
    log s' = log s ++
      (if decide (cl_this c ∈ isUnmounted s) then []
       else
         [Emit (cl_this c) "modalCreated"
            (0 <? length (remove_first (cl_id c) (stack_of s (cl_this c))))%nat;
          Emit (cl_this c) "modals"
            (0 <? length (remove_first (cl_id c) (stack_of s (cl_this c))))%nat]).
Proof.
  intros He Hp.
  destruct (onDismissModal_settled c r s e He)
    as (s' & Hd & _ & _ & _ & _ & Hpr & Hst & Hlog & _); [by rewrite Hp|].
  exists s'. rewrite Hlog, Hst, stack_of_unlisted, decide_True by done.
  done.
Qed.

Lemma repeated_dismissal_emits_unless_unmounted_witness :
  let s := run [Mount 0; Create "A" None 5; Render 0;
                Dismiss (Closure 0 "00000005" 0) (VStr "x");
                Unmount 0; Unmounted 0] initial in
  heap s !! 0 = Some one_modal_entry /\
  promises s !! resolve one_modal_entry = Some (Fulfilled (VStr "x")) /\
  exists s',
    onDismissModal (Closure 0 "00000005" 0) (VStr "y") s = Returns tt s' /\
    promises s' = promises s /\
    stack_of s' 0 = remove_first "00000005" (stack_of s 0) /\
    log s' = log s ++
      (if decide (0 ∈ isUnmounted s) then []
       else
         [Emit 0 "modalCreated"
            (0 <? length (remove_first "00000005" (stack_of s 0)))%nat;
          Emit 0 "modals"
            (0 <? length (remove_first "00000005" (stack_of s 0)))%nat]).
Proof.
  intros s.
  assert (heap s !! 0 = Some one_modal_entry) as H1
    by (vm_compute; reflexivity).
  assert (promises s !! resolve one_modal_entry = Some (Fulfilled (VStr "x")))
    as H2 by (vm_compute; reflexivity).
  split_and!; [exact H1 | exact H2 |].
  exact (repeated_dismissal_emits_unless_unmounted (Closure 0 "00000005" 0)
           (VStr "y") (VStr "x") s one_modal_entry H1 H2).
Defined.

(** ** Mounting and unmounting in sequence *)

(** X12: with instance [i] registered, mounting another instance [j] warns and
    never registers [j]: unmounting [i] afterwards leaves no instance
    registered although [j] is mounted, and unmounting [j] leaves [i]
    registered; in the other order, [i] unmounted first, [j] is registered
    and nothing is logged. *)
Theorem duplicate_mount_is_never_registered i j s :
  modalStack s = Some i -> j <> i ->
  modalStack (run [Mount j; Unmount i] s) = None /\
  modalStack (run [Mount j; Unmount j] s) = Some i /\
  modalStack (run [Unmount i; Mount j] s) = Some j /\
  log (run [Mount j; Unmount i] s) =
    log s ++ [Warn "Vue modal stack component mounted multiple times"] /\
  log (run [Unmount i; Mount j] s) = log s.
Proof.
  intros Hm Hne. cbn [run foldl step].
  rewrite (mounted_again j s i Hm). cbn [final].
  rewrite (beforeUnmount_registered i s Hm). cbn [final].
  rewrite (beforeUnmount_registered i (add_log _ s)) by exact Hm.
  rewrite (beforeUnmount_other j (add_log _ s))
    by (cbn; rewrite Hm; congruence).
  rewrite (mounted_first j (set_modalStack None s)) by reflexivity.
  cbn [final]. split_and!; reflexivity || exact Hm.
Qed.

Lemma duplicate_mount_is_never_registered_witness :
  modalStack (step (Mount 0) initial) = Some 0 /\ 1 <> 0 /\
  modalStack (run [Mount 1; Unmount 0] (step (Mount 0) initial)) = None /\
  modalStack (run [Mount 1; Unmount 1] (step (Mount 0) initial)) = Some 0 /\
  modalStack (run [Unmount 0; Mount 1] (step (Mount 0) initial)) = Some 1 /\
  log (run [Mount 1; Unmount 0] (step (Mount 0) initial)) =
    log (step (Mount 0) initial) ++
      [Warn "Vue modal stack component mounted multiple times"] /\
  log (run [Unmount 0; Mount 1] (step (Mount 0) initial))
    = log (step (Mount 0) initial).
Proof.
  assert (modalStack (step (Mount 0) initial) = Some 0) as H1 by reflexivity.
  assert (1 <> 0) as H2 by lia.
  split_and!; [exact H1 | exact H2 | ..];
    apply (duplicate_mount_is_never_registered 0 1 _ H1 H2).
Defined.

(** X13: with no instance registered, mounting an instance and unmounting it
    gives back the module state unchanged. *)
Theorem mount_unmount_round_trip i s :
  modalStack s = None -> run [Mount i; Unmount i] s = s.
Proof.
  intros Hm. cbn [run foldl step].
  rewrite (mounted_first i s Hm). cbn [final].
  rewrite beforeUnmount_registered by reflexivity. cbn [final].
  destruct s. cbn in *. by subst.
Qed.

Lemma mount_unmount_round_trip_witness :
  modalStack initial = None /\ run [Mount 0; Unmount 0] initial = initial.
Proof.
  split; [reflexivity|]. apply (mount_unmount_round_trip 0 initial).
  reflexivity.
Defined.

(** ** Creation order *)

(** X14: on a mounted instance a sequence of [createModal] calls appends the
    identifiers drawn to the instance's stack in call order, repeated
    identifiers included, adds one pending promise per call and leaves the
    instance registered. *)
Theorem stack_lists_modals_in_creation_order i
    (ms : list (Component * option (gmap string value) * N)) : forall s,
  modalStack s = Some i ->
  stack_of (run ((fun m => Create m.1.1 m.1.2 m.2) <$> ms) s) i
    = stack_of s i ++ ((fun m => gen_id m.2) <$> ms) /\
  promises (run ((fun m => Create m.1.1 m.1.2 m.2) <$> ms) s)
    = promises s ++ replicate (length ms) Pending /\
  modalStack (run ((fun m => Create m.1.1 m.1.2 m.2) <$> ms) s) = Some i.
Proof.
  induction ms as [|[[comp ps] rnd] ms IH]; intros s Hm.
  - cbn. by rewrite !app_nil_r.
  - change (run ((fun m => Create m.1.1 m.1.2 m.2) <$> (comp, ps, rnd) :: ms) s)
      with (run ((fun m => Create m.1.1 m.1.2 m.2) <$> ms)
              (final (createModal comp ps rnd s))).
    rewrite (createModal_mounted _ _ _ _ i Hm). cbn [final].
    match goal with |- context [run _ ?s0] => set (s1 := s0) end.
    destruct (IH s1 eq_refl) as (Hst & Hpr & Hms). rewrite Hst, Hpr, Hms.
    unfold stack_of at 1, s1. cbn [stacks promises].
    rewrite lookup_insert_eq. cbn [default fmap list_fmap length replicate].
    unfold id. cbn [snd]. rewrite <- !app_assoc. done.
Qed.

Lemma stack_lists_modals_in_creation_order_witness :
  modalStack (step (Mount 0) initial) = Some 0 /\
  stack_of (run ((fun m => Create m.1.1 m.1.2 m.2) <$>
                   [("A", @None (gmap string value), 5%N); ("B", None, 5%N); ("C", None, 255%N)])
              (step (Mount 0) initial)) 0
    = stack_of (step (Mount 0) initial) 0 ++
      ((fun m => gen_id m.2) <$>
         [("A", @None (gmap string value), 5%N); ("B", None, 5%N); ("C", None, 255%N)]) /\
  promises (run ((fun m => Create m.1.1 m.1.2 m.2) <$>
                   [("A", @None (gmap string value), 5%N); ("B", None, 5%N); ("C", None, 255%N)])
              (step (Mount 0) initial))
    = promises (step (Mount 0) initial) ++
      replicate
        (length [("A", @None (gmap string value), 5%N); ("B", None, 5%N);
                 ("C", None, 255%N)]) Pending /\
  modalStack (run ((fun m => Create m.1.1 m.1.2 m.2) <$>
                     [("A", @None (gmap string value), 5%N); ("B", None, 5%N); ("C", None, 255%N)])
                (step (Mount 0) initial)) = Some 0.
Proof.
  assert (modalStack (step (Mount 0) initial) = Some 0) as H1 by reflexivity.
  split; [exact H1|].
  exact (stack_lists_modals_in_creation_order 0
           [("A", @None (gmap string value), 5%N); ("B", None, 5%N); ("C", None, 255%N)] _ H1).
Defined.


(** ** Traces of [src/unnamed/part_000] *)

Section VariantTraces.
Import Variant.

(** What [render] leaves alone, whether it returns or throws. *)
Lemma Variant_render_entry_frame id s :
  let s' := final (render_entry id s) in
  stack s' = stack s /\ entries s' = entries s /\
  is_mounted s' = is_mounted s /\ promises s' = promises s /\ log s' = log s.
Proof.
  unfold render_entry, bind, gets, deref, h, modify, ret, throw.
  destruct (entries s !! id) as [l|]; [|done].
  destruct (heap s !! l) as [e|]; [|done].
  by destruct (vnode e).
Qed.

Lemma Variant_final_bind {A B} (m : M state A) (k : A -> M state B) s :
  final (bind m k s) =
    match m s with
    | Returns a s' => final (k a s')
    | Throws _ s' => s'
    end.
Proof. unfold bind. by destruct (m s). Qed.

Lemma Variant_arrayMap_render_frame ids : forall s,
  let s' := final (arrayMap render_entry ids s) in
  stack s' = stack s /\ entries s' = entries s /\
  is_mounted s' = is_mounted s /\ promises s' = promises s /\ log s' = log s.
Proof.
  cbv zeta. induction ids as [|id ids IH]; intros s; [done|].
  cbn [arrayMap]. rewrite Variant_final_bind.
  pose proof (Variant_render_entry_frame id s) as Hf. cbv zeta in Hf.
  destruct (render_entry id s) as [v s1|err s1]; [|exact Hf].
  cbn [final] in Hf. destruct Hf as (<- & <- & <- & <- & <-).
  rewrite Variant_final_bind. specialize (IH s1).
  by destruct (arrayMap render_entry ids s1).
Qed.

Lemma Variant_render_frame s :
  let s' := final (render s) in
  stack s' = stack s /\ entries s' = entries s /\
  is_mounted s' = is_mounted s /\ promises s' = promises s /\ log s' = log s.
Proof. apply (Variant_arrayMap_render_frame (stack s) s). Qed.

Lemma Variant_onDismissModal_frame c r s :
  let s' := final (onDismissModal c r s) in
  stack s' = remove_first (cl_id c) (stack s) /\
  entries s' = delete (cl_id c) (entries s) /\
  is_mounted s' = is_mounted s.
Proof.
  rewrite Variant_onDismissModal_eq. cbv zeta.
  destruct (heap s !! cl_entry c) as [e|]; [|done].
  match goal with
  | |- context [promise_resolve ?p r ?s0] =>
      destruct (Variant_promise_resolve_frame p r s0)
        as (Hs & He & _ & Hm & _)
  end.
  cbv zeta in *. by rewrite Hs, He, Hm.
Qed.

Lemma Variant_step_mounted o s :
  is_mounted s = true -> is_mounted (step o s) = true.
Proof.
  intros Hm. destruct o as [|comp ps rnd| |c r|]; cbn [step].
  - unfold mounted, bind, gets. by destruct (is_mounted s).
  - done.
  - by destruct (Variant_render_frame s) as (_ & _ & -> & _).
  - by destruct (Variant_onDismissModal_frame c r s) as (_ & _ & ->).
  - by destruct (Variant_runJob_frame s) as (_ & _ & _ & -> & _).
Qed.

(** X15: in [src/unnamed/part_000] the [mounted] flag is never reset: once it
    is set, after every sequence of operations it is still set, and
    [mounted()] logs the warning and returns. *)
Theorem Variant_every_later_mount_warns tr s :
  is_mounted s = true ->
  is_mounted (run tr s) = true /\
  exists s',
    mounted (run tr s) = Returns tt s' /\
    log s' = log (run tr s) ++
      [Warn "Vue modal stack component mounted multiple times"].
Proof.
  intros Hm.
  assert (is_mounted (run tr s) = true) as Hrun.
  { revert s Hm. induction tr as [|o tr IH]; intros s Hm; [done|].
    cbn. apply IH. by apply Variant_step_mounted. }
  split; [done|]. rewrite (Variant_second_mount_warns _ Hrun).
  by eexists.
Qed.

Lemma Variant_every_later_mount_warns_witness :
  is_mounted (step Mount initial) = true /\
  is_mounted (run [Create "A" None 5; Render;
                   Dismiss (Closure "00000005" 0) (VStr "x")]
                (step Mount initial)) = true /\
  exists s',
    mounted (run [Create "A" None 5; Render;
                  Dismiss (Closure "00000005" 0) (VStr "x")]
               (step Mount initial)) = Returns tt s' /\
    log s' =
      log (run [Create "A" None 5; Render;
                Dismiss (Closure "00000005" 0) (VStr "x")]
             (step Mount initial)) ++
      [Warn "Vue modal stack component mounted multiple times"].
Proof.
  assert (is_mounted (step Mount initial) = true) as H1 by reflexivity.
  split; [exact H1|].
  exact (Variant_every_later_mount_warns _ _ H1).
Defined.

(** ** Stack and registry in step *)

Lemma Variant_synced_length s :
  synced s -> length (stack s) = size (entries s).
Proof.
  intros [Hnd Hdom].
  rewrite <- (size_dom (D := gset string)).
  rewrite <- (size_list_to_set (C := gset string)) by done.
  f_equal. apply set_eq. intros id.
  by rewrite elem_of_list_to_set, elem_of_dom.
Qed.

Lemma Variant_synced_step o s :
  synced s -> collision_free [o] s -> synced (step o s).
Proof.
  intros [Hnd Hdom] [Ho _]. destruct o as [|comp ps rnd| |c r|]; cbn [step];
    [..|destruct (Variant_runJob_frame s) as (Hs & He & _);
        split; rewrite ?Hs, ?He; done].
  - unfold mounted, bind, gets. by destruct (is_mounted s).
  - rewrite Variant_createModal_always_registers. cbn [final].
    split; cbn [stack entries].
    + apply NoDup_app. split_and!; [done| |apply NoDup_singleton].
      intros id Hin ->%list_elem_of_singleton.
      apply Hdom in Hin as [l Hl]. congruence.
    + intros id. rewrite elem_of_app, list_elem_of_singleton, lookup_insert.
      case_decide as Hid.
      * subst id. split; [by eauto | by right].
      * rewrite Hdom. split; [by intros [?|?] | by left].
  - destruct (Variant_render_frame s) as (Hs & He & _).
    split; rewrite ?Hs, ?He; done.
  - destruct (Variant_onDismissModal_frame c r s) as (Hs & He & _).
    split; rewrite ?Hs, ?He.
    + by apply NoDup_remove_first.
    + intros id. destruct (decide (id = cl_id c)) as [->|Hne].
      * rewrite lookup_delete_eq. split.
        -- intros Hin. by apply remove_first_NoDup_absent in Hin.
        -- by intros [? ?].
      * rewrite lookup_delete_ne by done. rewrite <- Hdom. split.
        -- apply elem_of_remove_first.
        -- by apply elem_of_remove_first_ne.
Qed.

(** X16: in [src/unnamed/part_000], where no instance has to be mounted: along
    a trace in which every [createModal] draws an identifier that is not in
    the registry at that moment, after each operation the length of the
    stack is the number of registry entries. *)
Theorem Variant_stack_length_is_registry_size tr k :
  collision_free tr initial ->
  length (stack (run (take k tr) initial))
  = size (entries (run (take k tr) initial)).
Proof.
  intros Hcf. apply Variant_synced_length.
  assert (synced initial) as H0.
  { split; cbn; [constructor|]. intros id. rewrite lookup_empty, elem_of_nil.
    split; [done | by intros [? ?]]. }
  revert H0 Hcf. generalize initial. revert k.
  induction tr as [|o tr IH]; intros k s Hs Hcf.
  - by rewrite take_nil.
  - destruct k as [|k]; [done|]. destruct Hcf as [Ho Htr]. cbn.
    apply IH; [|done]. apply Variant_synced_step; [done | by split].
Qed.

Lemma Variant_stack_length_is_registry_size_witness :
  collision_free
    [Create "A" None 5; Mount; Render; Create "B" None 255;
     Dismiss (Closure "00000005" 0) (VStr "x"); Mount] initial /\
  length (stack (run (take 5
    [Create "A" None 5; Mount; Render; Create "B" None 255;
     Dismiss (Closure "00000005" 0) (VStr "x"); Mount]) initial))
  = size (entries (run (take 5
    [Create "A" None 5; Mount; Render; Create "B" None 255;
     Dismiss (Closure "00000005" 0) (VStr "x"); Mount]) initial)).
Proof.
  assert (collision_free
    [Create "A" None 5; Mount; Render; Create "B" None 255;
     Dismiss (Closure "00000005" 0) (VStr "x"); Mount] initial) as Hcf.
  { cbn [collision_free]. split_and!; try done; vm_compute; reflexivity. }
  split; [exact Hcf|].
  exact (Variant_stack_length_is_registry_size _ 5 Hcf).
Defined.

End VariantTraces.
